(** * graphql-query-toolkit: naming inference, cache utilities and the
      multi-endpoint code-generation plan

    A shallow embedding of
    - [extractServiceName] and [extractShortName] of the cache-utils
      plugin (in src/cli.js),
    - [createQueryKeys] and [createUtilsFactory] (src/core/utils.ts),
    - [createCodegenConfig] and the fetcher whose text it embeds
      (src/core/codegen.ts).

    JavaScript strings are modelled by [string]; every literal the code
    handles here (operation names, output paths, header names) is ASCII. *)

From Stdlib Require Import ZArith Ascii String List Lia.
From stdpp Require Import base tactics option list strings gmap fin_maps pretty.

Open Scope string_scope.

(* ===================================================================== *)
(** ** Strings *)
(* ===================================================================== *)

Module Str.

(** [s.startsWith(p)], returning what follows [p]. *)
Fixpoint stripPrefix (p s : string) : option string :=
  match p, s with
  | EmptyString, _ => Some s
  | String a p', String b s' =>
      if decide (a = b) then stripPrefix p' s' else None
  | String _ _, EmptyString => None
  end.

Fixpoint take (n : nat) (s : string) : string :=
  match n, s with
  | S n', String c s' => String c (take n' s')
  | _, _ => EmptyString
  end.

Fixpoint drop (n : nat) (s : string) : string :=
  match n, s with
  | S n', String _ s' => drop n' s'
  | _, _ => s
  end.

(** [s.includes(sub)] *)
Fixpoint includes (sub s : string) : bool :=
  match stripPrefix sub s with
  | Some _ => true
  | None =>
      match s with
      | EmptyString => false
      | String _ s' => includes sub s'
      end
  end.

Definition isUpper (c : ascii) : bool :=
  (65 <=? nat_of_ascii c)%nat && (nat_of_ascii c <=? 90)%nat.
Definition isLower (c : ascii) : bool :=
  (97 <=? nat_of_ascii c)%nat && (nat_of_ascii c <=? 122)%nat.
Definition isDigit (c : ascii) : bool :=
  (48 <=? nat_of_ascii c)%nat && (nat_of_ascii c <=? 57)%nat.

(** The character class [\w] of a regular expression: [A-Za-z0-9_]. *)
Definition isWordChar (c : ascii) : bool :=
  isUpper c || isLower c || isDigit c || bool_decide (c = "_"%char).

Definition lowerChar (c : ascii) : ascii :=
  if isUpper c then ascii_of_nat (nat_of_ascii c + 32) else c.

(** [s.toLowerCase()] on ASCII text. *)
Fixpoint toLowerCase (s : string) : string :=
  match s with
  | EmptyString => EmptyString
  | String c s' => String (lowerChar c) (toLowerCase s')
  end.

(** [s.charAt(0).toLowerCase() + s.slice(1)] *)
Definition lowerFirst (s : string) : string :=
  match s with
  | EmptyString => EmptyString
  | String c s' => String (lowerChar c) s'
  end.

End Str.

(* ===================================================================== *)
(** ** The regular expressions of the naming helpers *)
(* ===================================================================== *)

Module Regex.

(** The fragment the plugins use: literal text, a parenthesised
    alternation of literals, and the greedy group [(\w+)].  Both kinds of
    parenthesis capture. *)
Inductive Item :=
| Lit (s : string)
| Alt (alts : list string)
| WordPlus.

Record Regex := { anchored : bool; items : list Item }.

(** A match: the captured groups in order, and the text after it. *)
Record Found := { groups : list string; rest : string }.

(** Length of the longest run of [\w] characters starting [s]. *)
Fixpoint wordRun (s : string) : nat :=
  match s with
  | String c s' => if Str.isWordChar c then S (wordRun s') else 0
  | EmptyString => 0
  end.

(** Alternatives are tried left to right; the first one after which the
    remainder of the pattern matches is kept. *)
Fixpoint firstAlt (k : string → option Found) (s : string)
    (alts : list string) : option Found :=
  match alts with
  | [] => None
  | a :: alts' =>
      match Str.stripPrefix a s with
      | Some s' =>
          match k s' with
          | Some f =>
              Some {| groups := a :: groups f; rest := rest f |}
          | None => firstAlt k s alts'
          end
      | None => firstAlt k s alts'
      end
  end.

(** Greedy [\w+]: the longest run first, giving back one character at a
    time (down to one) until the remainder of the pattern matches. *)
Fixpoint backtrack (k : string → option Found) (s : string) (n : nat)
    : option Found :=
  match n with
  | 0 => None
  | S n' =>
      match k (Str.drop n s) with
      | Some f =>
          Some {| groups := Str.take n s :: groups f; rest := rest f |}
      | None => backtrack k s n'
      end
  end.

(** Match the items at the start of [s]. *)
Fixpoint matchHere (p : list Item) (s : string) : option Found :=
  match p with
  | [] => Some {| groups := []; rest := s |}
  | Lit l :: p' =>
      match Str.stripPrefix l s with
      | Some s' => matchHere p' s'
      | None => None
      end
  | Alt alts :: p' => firstAlt (matchHere p') s alts
  | WordPlus :: p' => backtrack (matchHere p') s (wordRun s)
  end.

(** Leftmost match of unanchored items: the index where it starts. *)
Fixpoint search (p : list Item) (s : string) (idx : nat)
    : option (nat * Found) :=
  match matchHere p s with
  | Some f => Some (idx, f)
  | None =>
      match s with
      | EmptyString => None
      | String _ s' => search p s' (S idx)
      end
  end.

(** [re.exec(s)] for a regular expression without flags: [^] anchors at
    index 0. *)
Definition exec (re : Regex) (s : string) : option (nat * Found) :=
  if anchored re then
    match matchHere (items re) s with
    | Some f => Some (0, f)
    | None => None
    end
  else search (items re) s 0.

(** [s.match(re)]: the captured groups, [match[1]] first. *)
Definition matchGroups (re : Regex) (s : string) : option (list string) :=
  match exec re s with
  | Some (_, f) => Some (groups f)
  | None => None
  end.

(** [s.replace(re, by)]: the first match only (no [g] flag). *)
Definition replace (re : Regex) (by_ : string) (s : string) : string :=
  match exec re s with
  | Some (i, f) => Str.take i s +:+ by_ +:+ rest f
  | None => s
  end.

End Regex.

(* ===================================================================== *)
(** ** Naming inference (the cache-utils plugin, in src/cli.js) *)
(* ===================================================================== *)

Module Naming.
Import Regex.

Definition start (p : list Item) : Regex := {| anchored := true; items := p |}.
Definition anywhere (p : list Item) : Regex := {| anchored := false; items := p |}.

(** [(match) => match[1].toLowerCase() + 's'].  Every rule below has
    [(\w+)] as its first group, so [match[1]] is always a string. *)
Definition transform (m : list string) : string :=
  Str.toLowerCase (hd "" m) +:+ "s".

Definition patterns : list (Regex * (list string → string)) :=
  [ (start [Lit "Get"; WordPlus; Lit "Service"], transform);
    (start [WordPlus; Lit "Service"], transform);
    (start [Lit "Get"; WordPlus], transform);
    (start [Lit "Create"; WordPlus], transform);
    (start [Lit "Update"; WordPlus], transform);
    (start [Lit "Delete"; WordPlus], transform) ].

(** The [for] loop over the rules: the first rule that matches decides. *)
Fixpoint firstMatch (ps : list (Regex * (list string → string)))
    (operationName : string) : option string :=
  match ps with
  | [] => None
  | (pattern, tr) :: ps' =>
      match matchGroups pattern operationName with
      | Some m => Some (tr m)
      | None => firstMatch ps' operationName
      end
  end.

Definition extractServiceName (operationName : string) : string :=
  match firstMatch patterns operationName with
  | Some serviceName => serviceName
  | None => "general"
  end.

Definition verbs : list string := ["Get"; "Create"; "Update"; "Delete"].

(** The variable [shortName] of [extractShortName], before ['get'] is put
    in front of it. *)
Definition shortName (operationName : string) : string :=
  if Str.includes "NotificationService" operationName then
    replace (start [Lit "Get"]) ""
      (replace (start [Alt verbs; Lit "NotificationService"]) ""
         operationName)
  else
    replace (start [Lit "Booking"]) ""
      (replace (start [Lit "User"]) ""
         (replace (anywhere [Lit "Service"]) ""
            (replace (start [Alt verbs]) "" operationName))).

Definition extractShortName (operationName : string) : string :=
  "get" +:+ shortName operationName.

End Naming.

(* ===================================================================== *)
(** ** JavaScript values of the cache utilities *)
(* ===================================================================== *)

Module Js.

(** A value as [===] sees it: primitives are compared by value, anything
    else (a nested object, an array, a function) by its reference.
    Numbers are the integers; [NaN], the one number that is not [===] to
    itself, is left out. *)
Inductive Value :=
| JUndefined
| JNull
| JBool (b : bool)
| JNum (n : Z)
| JStr (s : string)
| JRef (r : nat).

#[global] Instance Value_eq_dec : EqDecision Value.
Proof. solve_decision. Defined.

Definition strictEq (a b : Value) : bool := bool_decide (a = b).

(** An argument typed [any]: a value as above, or a plain object given by
    its own properties ([Record<string, any>]). *)
Inductive Any :=
| AVal (v : Value)
| ARecord (o : gmap string Value).

#[global] Instance Any_eq_dec : EqDecision Any.
Proof. solve_decision. Defined.

Definition undefined : Any := AVal JUndefined.
Definition str (s : string) : Any := AVal (JStr s).

(** [x === undefined] *)
Definition isUndefined (x : Any) : bool :=
  match x with
  | AVal JUndefined => true
  | _ => false
  end.

(** What a call evaluates to: a result, or a thrown [TypeError]. *)
Inductive Outcome (A : Type) :=
| Ok (a : A)
| TypeError.
Arguments Ok {A} a.
Arguments TypeError {A}.

End Js.

(* ===================================================================== *)
(** ** The cache client the utilities are given *)
(* ===================================================================== *)

Module Client.
Import Js.

(** A cache key: [[operationName]] or [[operationName, variables]]. *)
Abbreviation QueryKey := (list Any).

(** A cache entry, as far as the utilities can tell entries apart. *)
Record Query := {
  queryKey : QueryKey;
  data : Any;
  isInvalidated : bool;
  fetchCount : nat;
  isFetching : bool
}.

(** [{ queryKey, predicate? }] *)
Record QueryFilters := {
  filterKey : QueryKey;
  predicate : option (Query → bool)
}.

(** [setQueryData]'s second argument: the new data, or a function of the
    previous data. *)
Inductive DataOrUpdater :=
| Data (d : Any)
| Updater (f : Any → Any).

(** The five methods of [QueryClient] the utilities call, over the state
    [C] of the client.  The asynchronous ones are awaited by their one
    caller, so each is a state transformer. *)
Record QueryClient (C : Type) := {
  invalidateQueries : QueryFilters → C → C;
  refetchQueries : QueryFilters → C → C;
  cancelQueries : QueryFilters → C → C;
  getQueryData : QueryKey → C → Any;
  setQueryData : QueryKey → DataOrUpdater → C → C
}.
Arguments invalidateQueries {C}.
Arguments refetchQueries {C}.
Arguments cancelQueries {C}.
Arguments getQueryData {C}.
Arguments setQueryData {C}.

End Client.

(* ===================================================================== *)
(** ** src/core/utils.ts *)
(* ===================================================================== *)

Module Utils.
Import Js Client.

(** [(variables?: any) =>
      (variables === undefined ? [operationName] : [operationName, variables])] *)
Definition queryKeyOf (operationName : string) (variables : Any) : QueryKey :=
  if isUndefined variables then [str operationName]
  else [str operationName; variables].

(** [QueryKeyFactory]: an object from operation names to key functions. *)
Definition createQueryKeys (operations : list string)
    : gmap string (Any → QueryKey) :=
  foldl (fun keys operationName =>
           <[operationName := queryKeyOf operationName]> keys)
        ∅ operations.

Record UtilsConfig := {
  queryKeys : gmap string (Any → QueryKey);
  groups : gmap string (list string)
}.

(** [variables?.[key]] for [variables = query.queryKey[1]], which the source
    casts to [Record<string, any> | undefined].  A missing segment and [undefined]
    read as [undefined]; a plain object gives its own property or
    [undefined].  This is the read of an own property: under a key that
    [Object.prototype] defines ([toString], [constructor], [__proto__],
    ...) the source finds the inherited member where the object has none of
    its own, which this function does not follow.  Segments outside the
    cast's type (a string, a reference) are read as having no property.
    The theorems on filters take both cases out by hypothesis: filter keys
    outside the names of [Object.prototype], and typed variables. *)
Definition optionalProp (variables : option Any) (key : string) : Value :=
  match variables with
  | Some (ARecord o) => default JUndefined (o !! key)
  | _ => JUndefined
  end.

(** [(query) => { const variables = query.queryKey[1];
      return Object.entries(filters).every(
        ([key, value]) => variables?.[key] === value); }] *)
Definition filterPredicate (filters : gmap string Value) (query : Query) : bool :=
  let variables := queryKey query !! 1%nat in
  forallb (fun '(key, value) => strictEq (optionalProp variables key) value)
          (map_to_list filters).

(** [filters && Object.keys(filters).length > 0] selects the filtered
    call; otherwise the operation name alone is the filter. *)
Definition filtersFor (operationName : string)
    (filters : option (gmap string Value)) : QueryFilters :=
  match filters with
  | Some fs =>
      if (0 <? length (map_to_list fs))%nat then
        {| filterKey := [str operationName];
           predicate := Some (filterPredicate fs) |}
      else {| filterKey := [str operationName]; predicate := None |}
  | None => {| filterKey := [str operationName]; predicate := None |}
  end.

(** The object stored at [utils[groupName][camelCaseName]]. *)
Record OperationUtils (C : Type) := {
  invalidate : option (gmap string Value) → C → C;
  refetch : option (gmap string Value) → C → C;
  getData : Any → C → Outcome Any;
  setData : DataOrUpdater → Any → C → Outcome C;
  cancel : option (gmap string Value) → C → C
}.
Arguments invalidate {C}.
Arguments refetch {C}.
Arguments getData {C}.
Arguments setData {C}.
Arguments cancel {C}.

Section Factory.
Context {C : Type}.
Variable config : UtilsConfig.
Variable queryClient : QueryClient C.

(** [queryKeys[operationName](variables)], read among the factory's own
    entries: a [TypeError] when the factory has no function under that
    name.  For a name the factory lacks and [Object.prototype] defines
    ([toString], [valueOf], ...) the source calls the inherited member
    instead; the theorems on missing names leave those names out by
    hypothesis. *)
Definition keyFor (operationName : string) (variables : Any)
    : Outcome QueryKey :=
  match queryKeys config !! operationName with
  | Some key => Ok (key variables)
  | None => TypeError
  end.

Definition operationUtils (operationName : string) : OperationUtils C := {|
  invalidate filters :=
    invalidateQueries queryClient (filtersFor operationName filters);
  refetch filters :=
    refetchQueries queryClient (filtersFor operationName filters);
  getData variables c :=
    match keyFor operationName variables with
    | Ok k => Ok (getQueryData queryClient k c)
    | TypeError => TypeError
    end;
  setData d variables c :=
    match keyFor operationName variables with
    | Ok k => Ok (setQueryData queryClient k d c)
    | TypeError => TypeError
    end;
  cancel filters :=
    cancelQueries queryClient (filtersFor operationName filters)
|}.

(** The inner loop: one entry per operation name under its camel-cased
    name, a later name overwriting an earlier one with the same key.  The
    maps of [groupUtils] and [createUtils] are the objects' own
    properties as assignment creates them.  Assigning under [__proto__]
    creates none (it sets the object's prototype); the theorems on the
    shape of the result leave that one name out by hypothesis, as an
    operation name and as a group name. *)
Definition groupUtils (operationNames : list string)
    : gmap string (OperationUtils C) :=
  foldl (fun group operationName =>
           <[Str.lowerFirst operationName := operationUtils operationName]> group)
        ∅ operationNames.

(** [createUtilsFactory(config)(queryClient)] *)
Definition createUtils : gmap string (gmap string (OperationUtils C)) :=
  groupUtils <$> groups config.

End Factory.

Definition createUtilsFactory {C : Type} (config : UtilsConfig)
    : QueryClient C → gmap string (gmap string (OperationUtils C)) :=
  createUtils config.

End Utils.

(* ===================================================================== *)
(** ** A reference cache client *)
(* ===================================================================== *)

Module Cache.
Import Js Client.

(** The cache client is an external library, not part of this repository.
    What follows is its contract as the specification gives it (sections
    4.3 and 6): entries are addressed by an ordered key; reads and writes
    go to the entry at the exact key; invalidation, refetching and
    cancellation act on the entries whose key starts with the filter's
    [queryKey] and which the [predicate], when given, accepts. *)
Abbreviation Store := (list Query).

(** Modelled from the spec: a key matches a filter key that is its
    beginning, so [[operationName]] selects every entry of the operation
    whatever its variables. *)
Fixpoint startsWith (k pre : QueryKey) : bool :=
  match pre, k with
  | [], _ => true
  | p :: pre', x :: k' => bool_decide (x = p) && startsWith k' pre'
  | _ :: _, [] => false
  end.

(** Modelled from the spec: an entry is selected when its key matches and
    the predicate, if there is one, accepts it. *)
Definition matchQuery (f : QueryFilters) (q : Query) : bool :=
  startsWith (queryKey q) (filterKey f)
  && match predicate f with
     | Some p => p q
     | None => true
     end.

Definition markInvalidated (q : Query) : Query :=
  {| queryKey := queryKey q; data := data q; isInvalidated := true;
     fetchCount := fetchCount q; isFetching := isFetching q |}.

(** Modelled from the spec: refetching triggers a new execution of the
    entry's query.  The model records the trigger only, as one more fetch
    under way; what the execution brings back when it completes is the
    cache client's and the network's, and the [data] field written here
    stands for no claim: no property below speaks of an entry's data
    after a refetch. *)
Definition startFetch (q : Query) : Query :=
  {| queryKey := queryKey q; data := data q; isInvalidated := isInvalidated q;
     fetchCount := S (fetchCount q); isFetching := true |}.

Definition stopFetch (q : Query) : Query :=
  {| queryKey := queryKey q; data := data q; isInvalidated := isInvalidated q;
     fetchCount := fetchCount q; isFetching := false |}.

Definition withData (d : Any) (q : Query) : Query :=
  {| queryKey := queryKey q; data := d; isInvalidated := isInvalidated q;
     fetchCount := fetchCount q; isFetching := isFetching q |}.

(** Modelled from the spec: [invalidateQueries], [refetchQueries] and
    [cancelQueries] apply their effect to the selected entries and leave
    the others as they are. *)
Definition onMatching (act : Query → Query) (f : QueryFilters) (c : Store) : Store :=
  (fun q => if matchQuery f q then act q else q) <$> c.

(** Modelled from the spec: [getQueryData] reads what the cache holds at
    the exact key, [undefined] if nothing. *)
Fixpoint read (k : QueryKey) (c : Store) : Any :=
  match c with
  | [] => undefined
  | q :: c' => if decide (queryKey q = k) then data q else read k c'
  end.

Definition applyUpdater (u : DataOrUpdater) (old : Any) : Any :=
  match u with
  | Data d => d
  | Updater f => f old
  end.

(** Modelled from the spec: [setQueryData] writes the exact key; an
    updater receives the previous value, [undefined] if there is none. *)
Fixpoint write (k : QueryKey) (u : DataOrUpdater) (c : Store) : Store :=
  match c with
  | [] =>
      [ {| queryKey := k; data := applyUpdater u undefined;
           isInvalidated := false; fetchCount := 0; isFetching := false |} ]
  | q :: c' =>
      if decide (queryKey q = k) then withData (applyUpdater u (data q)) q :: c'
      else q :: write k u c'
  end.

(** Modelled from the spec: the cache-client handle of section 6. *)
Definition client : QueryClient Store := {|
  invalidateQueries := onMatching markInvalidated;
  refetchQueries := onMatching startFetch;
  cancelQueries := onMatching stopFetch;
  getQueryData := read;
  setQueryData := write
|}.

End Cache.

(* ===================================================================== *)
(** ** The fetcher embedded by src/core/codegen.ts *)
(* ===================================================================== *)

Module Fetcher.

(** The values the fetcher handles: its [options] argument, the request
    it builds and the parsed response body.  An object is the map of its
    own properties. *)
#[local] Unset Elimination Schemes.
Inductive Json :=
| Undefined
| Null
| Bool (b : bool)
| Num (n : Z)
| Str (s : string)
| Arr (elements : list Json)
| Obj (props : gmap string Json).
#[local] Set Elimination Schemes.

(** How the returned operation ends. *)
Inductive Failure :=
| Thrown (v : Json)        (** [throw v] *)
| TypeError                (** raised by the language itself *)
| Transport (reason : Json) (** [fetch] or [res.json()] rejected *).

Inductive Outcome (A : Type) :=
| Ok (a : A)
| Fail (f : Failure).
Arguments Ok {A} a.
Arguments Fail {A} f.

(** [if (v)], [v || w] *)
Definition truthy (v : Json) : bool :=
  match v with
  | Undefined | Null => false
  | Bool b => b
  | Num n => negb (n =? 0)%Z
  | Str s => negb (bool_decide (s = ""))
  | Arr _ | Obj _ => true
  end.

Definition orElse (v w : Json) : Json := if truthy v then v else w.

(** ['key' in v] for the two names the fetcher asks for, which no
    prototype defines: a [TypeError] unless [v] is an object. *)
Definition hasProp (key : string) (v : Json) : Outcome bool :=
  match v with
  | Obj props => Ok (bool_decide (is_Some (props !! key)))
  | Arr _ => Ok false
  | _ => Fail TypeError
  end.

(** [v.name] for the names the fetcher reads ([customHeaders],
    [endpoint], [errors], [data], [message]): own property of an object,
    [undefined] on any other value but [null] and [undefined]. *)
Definition getProp (name : string) (v : Json) : Outcome Json :=
  match v with
  | Obj props => Ok (default Undefined (props !! name))
  | Undefined | Null => Fail TypeError
  | _ => Ok Undefined
  end.

(** [v[0]] *)
Definition first (v : Json) : Outcome Json :=
  match v with
  | Arr elements => Ok (default Undefined (elements !! 0%nat))
  | Obj props => Ok (default Undefined (props !! "0"))
  | Str (String c _) => Ok (Str (String c EmptyString))
  | Undefined | Null => Fail TypeError
  | _ => Ok Undefined
  end.

Fixpoint letters (s : string) : list Json :=
  match s with
  | EmptyString => []
  | String c s' => Str (String c EmptyString) :: letters s'
  end.

Definition indexed (l : list Json) : gmap string Json :=
  list_to_map (imap (fun i x => (pretty i, x)) l).

(** The properties [{ ...v }] copies: the own enumerable ones. *)
Definition spread (v : Json) : gmap string Json :=
  match v with
  | Obj props => props
  | Arr elements => indexed elements
  | Str s => indexed (letters s)
  | _ => ∅
  end.

Record Request := {
  url : Json;
  method : string;
  headers : gmap string Json;
  body_query : string;
  body_variables : Json
}.

(** What the network gives back for a request: a parsed body, or a
    rejection of [fetch] or of [res.json()]. *)
Inductive Response :=
| Parsed (json : Json)
| Rejected (reason : Json).

(** The fetcher is text: [config.gatewayEndpoint] is pasted as it is
    between two double quotes (lines 70 and 75).  The literal so written
    denotes the pasted string when that string is made of printable ASCII
    characters (codes 32 to 126) other than the double quote (34) and the
    backslash (92), as the characters of a URL are.  A backslash starts
    an escape sequence, and a double quote or a line break ends the
    literal; those and the characters outside printable ASCII are left
    out. *)
Definition literalSafe (s : string) : bool :=
  forallb (fun c : ascii =>
             let n := nat_of_ascii c in
             (32 <=? n)%nat && (n <=? 126)%nat
             && negb (n =? 34)%nat && negb (n =? 92)%nat)
          (list_ascii_of_string s).

(** The string the fetcher's literal denotes for a pasted gateway, where
    the literal is safe; the other gateways are outside this model. *)
Definition literalValue (pasted : string) : option string :=
  if literalSafe pasted then Some pasted else None.

Section Fetcher.
(** The string denoted by the literal ["${config.gatewayEndpoint}"] of
    the fetcher's text: [config.gatewayEndpoint] itself when
    [literalValue] gives it. *)
Variable gatewayEndpoint : string.

(** Lines 69-79: [customHeaders] and [endpoint] from [options]. *)
Definition readOptions (options : Json) : Outcome (Json * Json) :=
  if truthy options then
    match hasProp "customHeaders" options, hasProp "endpoint" options with
    | Ok c, Ok e =>
        if c || e then
          match getProp "customHeaders" options, getProp "endpoint" options with
          | Ok ch, Ok ep =>
              Ok (orElse ch (Obj ∅), orElse ep (Str gatewayEndpoint))
          | Fail f, _ | _, Fail f => Fail f
          end
        else Ok (options, Str gatewayEndpoint)
    | Fail f, _ | _, Fail f => Fail f
    end
  else Ok (Obj ∅, Str gatewayEndpoint).

(** Lines 81-90: the arguments of [fetch]. *)
Definition buildRequest (query : string) (variables options : Json)
    : Outcome Request :=
  match readOptions options with
  | Ok (customHeaders, endpoint) =>
      Ok {| url := endpoint;
            method := "POST";
            headers := spread customHeaders
                         ∪ {[ "Content-Type" := Str "application/json" ]};
            body_query := query;
            body_variables := variables |}
  | Fail f => Fail f
  end.

(** Lines 92-99: what is made of the parsed body. *)
Definition settle (json : Json) : Outcome Json :=
  match getProp "errors" json with
  | Ok errors =>
      if truthy errors then
        match first errors with
        | Ok e =>
            match getProp "message" e with
            | Ok message => Fail (Thrown message)
            | Fail f => Fail f
            end
        | Fail f => Fail f
        end
      else getProp "data" json
  | Fail f => Fail f
  end.

(** [fetcher(query, variables, options)()] against a network. *)
Definition fetcher (query : string) (variables options : Json)
    (network : Request → Response) : Outcome Json :=
  match buildRequest query variables options with
  | Ok request =>
      match network request with
      | Parsed json => settle json
      | Rejected reason => Fail (Transport reason)
      end
  | Fail f => Fail f
  end.

End Fetcher.

End Fetcher.

(* ===================================================================== *)
(** ** src/core/codegen.ts *)
(* ===================================================================== *)

Module Codegen.

Record EndpointConfig := {
  schema : string;
  headers : option (gmap string string);
  documentsPath : string;
  gatewayEndpoint : string
}.

(** [endpoints] is given by its entries in the order [Object.entries]
    lists them; an object has each name once. *)
Record CodegenOptions := {
  endpoints : list (string * EndpointConfig);
  baseOutputDir : option string;
  reactQueryVersion : option Z;
  appName : option string
}.

(** The [config] of a generation target. *)
Inductive TargetConfig :=
| ReactQuery (fetcherGateway : string) (version : Z)
    (** the fetcher text with this gateway spliced in, then
        [reactQueryVersion]; the other settings are constants *)
| CacheUtils (serviceName : string)
| Readme (title : string) (endpointNames : list string) (isMultiEndpoint : bool).

Record Target := {
  preset : option string;
  targetSchema : string * gmap string string;
    (** [{ [schema]: { headers } }] *)
  documents : option (list string);
  plugins : option (list string);
  config : option TargetConfig
}.

Record CodegenConfig := {
  ignoreNoDocuments : bool;
  generates : gmap string Target
}.

(** [names.join(', ')] *)
Fixpoint join (sep : string) (l : list string) : string :=
  match l with
  | [] => ""
  | [x] => x
  | x :: l' => x +:+ sep +:+ join sep l'
  end.

Section Compile.
(** [join(__dirname, '../plugins/' + file)], fixed by where the
    package is installed. *)
Variable pluginPath : string → string.

Definition schemaOf (c : EndpointConfig) : string * gmap string string :=
  (schema c, default ∅ (headers c)).

(** The four assignments of one turn of the [forEach] loop, in order. *)
Definition endpointTargets (baseDir : string) (version : Z)
    (entry : string * EndpointConfig) : list (string * Target) :=
  let '(name, c) := entry in
  let outputDir := baseDir +:+ "/" +:+ name in
  let pluginsDirectory := outputDir +:+ "/plugins" in
  [ (outputDir +:+ "/",
     {| preset := Some "client"; targetSchema := schemaOf c;
        documents := Some [documentsPath c]; plugins := None;
        config := None |});
    (pluginsDirectory +:+ "/graphql-request.ts",
     {| preset := None; targetSchema := schemaOf c;
        documents := Some [documentsPath c];
        plugins := Some ["typescript"; "typescript-operations";
                         "typescript-graphql-request"];
        config := None |});
    (pluginsDirectory +:+ "/react-query.ts",
     {| preset := None; targetSchema := schemaOf c;
        documents := Some [documentsPath c];
        plugins := Some ["typescript"; "typescript-operations";
                         "typescript-react-query"];
        config := Some (ReactQuery (gatewayEndpoint c) version) |});
    (outputDir +:+ "/cache-utils.ts",
     {| preset := None; targetSchema := schemaOf c;
        documents := Some [documentsPath c];
        plugins := Some [pluginPath "cache-utils.plugin.cjs"];
        config := Some (CacheUtils name) |}) ].

(** The assignment under [if (firstEndpoint)], if it is made. *)
Definition readmeTarget (baseDir app : string)
    (eps : list (string * EndpointConfig)) : list (string * Target) :=
  let endpointNames := eps.*1 in
  match head (eps.*2) with
  | Some firstEndpoint =>
      [ (baseDir +:+ "/../README.md",
         {| preset := None; targetSchema := schemaOf firstEndpoint;
            documents := None;
            plugins := Some [pluginPath "readme-generator.plugin.cjs"];
            config :=
              Some (Readme
                      (if (0 <? length endpointNames)%nat
                       then app +:+ " (Multi-endpoint: "
                            +:+ join ", " endpointNames +:+ ")"
                       else app)
                      endpointNames
                      (0 <? length endpointNames)%nat) |}) ]
  | None => []
  end.

(** Every assignment [generates[path] = target] the function makes, in
    the order it makes them. *)
Definition assignments (options : CodegenOptions) : list (string * Target) :=
  let baseDir := default "src/libs/gql/__gen__" (baseOutputDir options) in
  let version := default 5%Z (reactQueryVersion options) in
  let app := default "your app" (appName options) in
  (endpoints options ≫= endpointTargets baseDir version)
  ++ readmeTarget baseDir app (endpoints options).

(** [generates]: the object after all the assignments. *)
Definition assignAll (l : list (string * Target)) : gmap string Target :=
  foldl (fun generates kv => <[kv.1 := kv.2]> generates) ∅ l.

Definition createCodegenConfig (options : CodegenOptions) : CodegenConfig :=
  {| ignoreNoDocuments := true;
     generates := assignAll (assignments options) |}.

End Compile.

End Codegen.

(* ===================================================================== *)
(** ** What the claims about the cache utilities speak of *)
(* ===================================================================== *)

Module CacheSpec.
Import Js Client Utils Cache.

(** [c'] is [c] with exactly the entries satisfying [P] invalidated, and
    every other entry as it was. *)
Definition invalidatesExactly (P : Query → Prop) (c c' : Store) : Prop :=
  length c' = length c
  ∧ ∀ (i : nat) (q : Query), c !! i = Some q →
      (P q → c' !! i = Some (markInvalidated q))
      ∧ (¬ P q → c' !! i = Some q).

(** The first segment of the entry's key is the operation name. *)
Definition forOperation (op : string) (q : Query) : Prop :=
  head (queryKey q) = Some (str op).

(** The variables segment is what the source casts it to: absent,
    [undefined], or a plain object. *)
Definition variablesTyped (q : Query) : Prop :=
  match queryKey q !! 1%nat with
  | None | Some (AVal JUndefined) | Some (ARecord _) => True
  | Some _ => False
  end.

(** The stored variables, an entry without variables having none. *)
Definition variablesOf (q : Query) : gmap string Value :=
  match queryKey q !! 1%nat with
  | Some (ARecord o) => o
  | _ => ∅
  end.

(** Every filter pair [(k, v)] has [variables[k]] equal to [v], a
    property the variables lack reading as [undefined]. *)
Definition matchesFilters (fs : gmap string Value) (q : Query) : Prop :=
  ∀ (k : string) (v : Value),
    fs !! k = Some v → default JUndefined (variablesOf q !! k) = v.

(** A fresh entry under a key. *)
Definition entry (k : QueryKey) : Query :=
  {| queryKey := k; data := undefined; isInvalidated := false;
     fetchCount := 0; isFetching := false |}.

(** [{ id: n }] *)
Definition idIs (n : Z) : Any := ARecord {[ "id" := JNum n ]}.

(** [groups = { users: ["GetUser"] }] with the keys of [createQueryKeys]. *)
Definition usersConfig : UtilsConfig :=
  {| queryKeys := createQueryKeys ["GetUser"];
     groups := {[ "users" := ["GetUser"] ]} |}.

End CacheSpec.

(* ===================================================================== *)
(** ** Responses the claims about the fetcher speak of *)
(* ===================================================================== *)

Module FetcherSpec.
Import Fetcher.

(** A network that answers every request with the same parsed body. *)
Definition respond (json : Json) : Request → Response := fun _ => Parsed json.

(** [{ errors: [{ message: "boom" }], data: null }] *)
Definition boomBody : Json :=
  Obj {[ "errors" := Arr [Obj {[ "message" := Str "boom" ]}]; "data" := Null ]}.

(** [{ errors: [], data: { ok: true } }] *)
Definition emptyErrorsBody : Json :=
  Obj {[ "errors" := Arr []; "data" := Obj {[ "ok" := Bool true ]} ]}.

Definition contentType : gmap string Json :=
  {[ "Content-Type" := Str "application/json" ]}.

End FetcherSpec.

(* ===================================================================== *)
(** ** Output paths of the generation plan *)
(* ===================================================================== *)

Module CodegenSpec.
Import Codegen.

(** What follows [{base}/{name}] in the four paths of an endpoint. *)
Definition suffixes : list string :=
  ["/"; "/plugins/graphql-request.ts"; "/plugins/react-query.ts";
   "/cache-utils.ts"].

Definition baseDirOf (options : CodegenOptions) : string :=
  default "src/libs/gql/__gen__" (baseOutputDir options).

Definition readmePath (options : CodegenOptions) : string :=
  baseDirOf options +:+ "/../README.md".

Definition endpointPath (options : CodegenOptions) (name suffix : string) : string :=
  baseDirOf options +:+ "/" +:+ name +:+ suffix.

(** The paths of one endpoint, in the order they are assigned. *)
Definition endpointPaths (options : CodegenOptions) (name : string) : list string :=
  endpointPath options name <$> suffixes.

(** The path of the documentation target, if it is assigned. *)
Definition readmePaths (options : CodegenOptions) : list string :=
  match endpoints options with
  | [] => []
  | _ :: _ => [readmePath options]
  end.

(** The number of documentation targets. *)
Definition readmeCount (options : CodegenOptions) : nat :=
  match endpoints options with
  | [] => 0
  | _ :: _ => 1
  end.

Definition sampleEndpoint (url : string) : EndpointConfig :=
  {| schema := url; headers := None; documentsPath := "src/**/*.gql";
     gatewayEndpoint := url |}.

Definition sampleOptions : CodegenOptions :=
  {| endpoints := [("users", sampleEndpoint "https://users/graphql");
                   ("bookings", sampleEndpoint "https://bookings/graphql")];
     baseOutputDir := None; reactQueryVersion := None; appName := None |}.

End CodegenSpec.

(* ===================================================================== *)
(** ** The document pass of the two plugins (in src/cli.js) *)
(* ===================================================================== *)

Module Documents.

(** [node.operation] *)
Inductive OperationType :=
| OpQuery
| OpMutation
| OpSubscription.

#[global] Instance OperationType_eq_dec : EqDecision OperationType.
Proof. solve_decision. Defined.

(** An [OperationDefinition] node as the visitors read it:
    [node.name.value], if the operation is named, and [node.operation].
    The plugins are given the nodes in the order [visit] enters them, one
    document after the other. *)
Record OperationDefinition := {
  name : option string;
  operation : OperationType
}.

End Documents.

Module CacheUtilsPlugin.
Import Documents.

(** The arrays [operations] and the object [groups] of the plugin. *)
Record Collected := {
  operations : list string;
  groups : gmap string (list string)
}.

(** [if (!groups[serviceName]) groups[serviceName] = [];
     groups[serviceName].push(operationName)] *)
Definition pushTo (groups : gmap string (list string))
    (serviceName operationName : string) : gmap string (list string) :=
  <[serviceName := (default [] (groups !! serviceName) ++ [operationName])%list]> groups.

(** The [enter] callback of the visitor. *)
Definition enter (st : Collected) (node : OperationDefinition) : Collected :=
  match name node with
  | Some operationName =>
      let serviceName := Naming.extractServiceName operationName in
      {| operations := (operations st ++ [operationName])%list;
         groups :=
           if bool_decide (serviceName ≠ "")
           then pushTo (groups st) serviceName operationName
           else groups st |}
  | None => st
  end.

Definition collect (nodes : list OperationDefinition) : Collected :=
  foldl enter {| operations := []; groups := ∅ |} nodes.

(** What the template is rendered with. *)
Record Context := {
  ctxOperations : list string;
  ctxGroups : gmap string (list string);
  hasOperations : bool;
  hasGroups : bool;
  serviceName : option string
}.

(** [plugin(schema, documents, config)], up to the rendering of the
    template; [config] is [None] when no configuration is given, and holds
    [config.serviceName] otherwise. *)
Definition plugin (nodes : list OperationDefinition)
    (config : option (option string)) : Context :=
  let st := collect nodes in
  {| ctxOperations := operations st;
     ctxGroups := groups st;
     hasOperations := (0 <? length (operations st))%nat;
     hasGroups := (0 <? size (groups st))%nat;
     serviceName :=
       match config with
       | Some (Some s) => if bool_decide (s ≠ "") then Some s else None
       | _ => None
       end |}.

End CacheUtilsPlugin.

Module ReadmePlugin.
Import Documents Regex.

(** The README plugin has its own copy of the rules. *)
Definition transform (m : list string) : string :=
  Str.toLowerCase (hd "" m) +:+ "s".

Definition patterns : list (Regex * (list string → string)) :=
  [ (Naming.start [Lit "Get"; WordPlus; Lit "Service"], transform);
    (Naming.start [WordPlus; Lit "Service"], transform);
    (Naming.start [Lit "Get"; WordPlus], transform);
    (Naming.start [Lit "Create"; WordPlus], transform);
    (Naming.start [Lit "Update"; WordPlus], transform);
    (Naming.start [Lit "Delete"; WordPlus], transform) ].

(** The loop of the README plugin's [extractServiceName], with its three
    comparisons before [return serviceName]. *)
Fixpoint firstRule (ps : list (Regex * (list string → string)))
    (operationName : string) : option string :=
  match ps with
  | [] => None
  | (pattern, tr) :: ps' =>
      match matchGroups pattern operationName with
      | Some m =>
          let serviceName := tr m in
          if decide (serviceName = "notifications") then Some "notifications"
          else if decide (serviceName = "users") then Some "users"
          else if decide (serviceName = "bookings") then Some "bookings"
          else Some serviceName
      | None => firstRule ps' operationName
      end
  end.

Definition extractServiceName (operationName : string) : string :=
  match firstRule patterns operationName with
  | Some serviceName => serviceName
  | None => "general"
  end.

(** The README plugin's copy of [extractShortName]. *)
Definition extractShortName (operationName : string) : string :=
  let shortName :=
    if Str.includes "NotificationService" operationName then
      replace (Naming.start [Lit "Get"]) ""
        (replace (Naming.start [Alt Naming.verbs; Lit "NotificationService"]) ""
           operationName)
    else
      replace (Naming.start [Lit "Booking"]) ""
        (replace (Naming.start [Lit "User"]) ""
           (replace (Naming.anywhere [Lit "Service"]) ""
              (replace (Naming.start [Alt Naming.verbs]) "" operationName)))
  in "get" +:+ shortName.

(** [{ queries: [], mutations: [], subscriptions: [] }] *)
Record ServiceGroup := {
  queries : list string;
  groupMutations : list string;
  groupSubscriptions : list string
}.

Definition emptyGroup : ServiceGroup :=
  {| queries := []; groupMutations := []; groupSubscriptions := [] |}.

(** [group[operationType === 'query' ? 'queries'
          : operationType === 'mutation' ? 'mutations'
          : 'subscriptions'].push(operationName)] *)
Definition pushByType (g : ServiceGroup) (ty : OperationType)
    (operationName : string) : ServiceGroup :=
  match ty with
  | OpQuery =>
      {| queries := (queries g ++ [operationName])%list;
         groupMutations := groupMutations g;
         groupSubscriptions := groupSubscriptions g |}
  | OpMutation =>
      {| queries := queries g;
         groupMutations := (groupMutations g ++ [operationName])%list;
         groupSubscriptions := groupSubscriptions g |}
  | OpSubscription =>
      {| queries := queries g;
         groupMutations := groupMutations g;
         groupSubscriptions := (groupSubscriptions g ++ [operationName])%list |}
  end.

(** The arrays [operations], [mutations], [subscriptions] and the object
    [groups] of the plugin. *)
Record Collected := {
  operations : list string;
  mutations : list string;
  subscriptions : list string;
  groups : gmap string ServiceGroup
}.

(** The [enter] callback of the visitor. *)
Definition enter (st : Collected) (node : OperationDefinition) : Collected :=
  match name node with
  | Some operationName =>
      let operationType := operation node in
      let serviceName := extractServiceName operationName in
      {| operations :=
           if decide (operationType = OpQuery)
           then (operations st ++ [operationName])%list else operations st;
         mutations :=
           if decide (operationType = OpQuery) then mutations st
           else if decide (operationType = OpMutation)
           then (mutations st ++ [operationName])%list else mutations st;
         subscriptions :=
           if decide (operationType = OpQuery) then subscriptions st
           else if decide (operationType = OpMutation) then subscriptions st
           else if decide (operationType = OpSubscription)
           then (subscriptions st ++ [operationName])%list else subscriptions st;
         groups :=
           if bool_decide (serviceName ≠ "")
           then <[serviceName :=
                    pushByType (default emptyGroup (groups st !! serviceName))
                      operationType operationName]> (groups st)
           else groups st |}
  | None => st
  end.

Definition collect (nodes : list OperationDefinition) : Collected :=
  foldl enter
    {| operations := []; mutations := []; subscriptions := []; groups := ∅ |}
    nodes.

(** [operations.length + mutations.length + subscriptions.length] *)
Definition totalOperations (st : Collected) : nat :=
  length (operations st) + length (mutations st) + length (subscriptions st).

End ReadmePlugin.

(* ===================================================================== *)
(** ** What the properties of the plugins speak of *)
(* ===================================================================== *)

Module PluginSpec.
Import Documents.

(** The names of the named operations among the nodes, in order. *)
Definition named (nodes : list OperationDefinition) : list string :=
  omap name nodes.

(** The names of the named operations of one type, in order. *)
Definition namedOf (ty : OperationType) (nodes : list OperationDefinition)
    : list string :=
  omap (fun node => if decide (operation node = ty) then name node else None)
       nodes.

(** The operation names that [extractServiceName] puts in service [g]. *)
Definition inService (g : string) (names : list string) : list string :=
  filter (fun operationName => Naming.extractServiceName operationName = g) names.

(** A property holding an array is there once something was pushed. *)
Definition whenNonEmpty (l : list string) : option (list string) :=
  match l with
  | [] => None
  | _ :: _ => Some l
  end.

(** The property names every object inherits from [Object.prototype]. *)
Definition objectPrototypeKeys : list string :=
  ["constructor"; "hasOwnProperty"; "isPrototypeOf"; "propertyIsEnumerable";
   "toLocaleString"; "toString"; "valueOf"; "__proto__";
   "__defineGetter__"; "__defineSetter__"; "__lookupGetter__";
   "__lookupSetter__"].

(** The README group of service [g]: there once an operation of the
    service was seen, with the service's operations sorted by type. *)
Definition readmeGroup (g : string) (nodes : list OperationDefinition)
    : option ReadmePlugin.ServiceGroup :=
  match inService g (named nodes) with
  | [] => None
  | _ :: _ =>
      Some {| ReadmePlugin.queries := inService g (namedOf OpQuery nodes);
              ReadmePlugin.groupMutations := inService g (namedOf OpMutation nodes);
              ReadmePlugin.groupSubscriptions :=
                inService g (namedOf OpSubscription nodes) |}
  end.

Definition sampleNodes : list OperationDefinition :=
  [ {| name := Some "GetUserProfile"; operation := OpQuery |};
    {| name := None; operation := OpQuery |};
    {| name := Some "CreateUserProfile"; operation := OpMutation |};
    {| name := Some "SubscribeToFeed"; operation := OpSubscription |} ].

End PluginSpec.

(* ===================================================================== *)
(** ** What the further properties of the cache utilities speak of *)
(* ===================================================================== *)

Module UtilsSpec.
Import Js Client Utils Cache CacheSpec.

(** The name starts with an upper-case letter, as operation names in
    Pascal case do. *)
Definition startsUpper (s : string) : bool :=
  match s with
  | String c _ => Str.isUpper c
  | EmptyString => false
  end.

(** The entries a call with [filters] on the handle of [op] is about:
    those of [op] that match every filter pair. *)
Definition selects (op : string) (filters : option (gmap string Value))
    (q : Query) : Prop :=
  forOperation op q
  ∧ match filters with
    | Some fs => matchesFilters fs q
    | None => True
    end.

(** [c'] is [c] with [act] applied to exactly the entries satisfying [P]. *)
Definition actsExactly (act : Query → Query) (P : Query → Prop)
    (c c' : Store) : Prop :=
  length c' = length c
  ∧ ∀ (i : nat) (q : Query), c !! i = Some q →
      (P q → c' !! i = Some (act q)) ∧ (¬ P q → c' !! i = Some q).

(** The operation whose handle ends up under key [k]: the last one of the
    group with that camel-cased name. *)
Definition lastNamed (k : string) (operationNames : list string) : option string :=
  last (filter (fun operationName => Str.lowerFirst operationName = k)
               operationNames).

(** A config whose key factory knows [GetUser] only, with [GetOrder]
    grouped all the same. *)
Definition partialConfig : UtilsConfig :=
  {| queryKeys := createQueryKeys ["GetUser"];
     groups := {[ "users" := ["GetUser"]; "orders" := ["GetOrder"] ]} |}.

End UtilsSpec.

(* ===================================================================== *)
(** ** What the further properties of the plan speak of *)
(* ===================================================================== *)

Module PlanSpec.
Import Codegen CodegenSpec.

Definition versionOf (options : CodegenOptions) : Z :=
  default 5%Z (reactQueryVersion options).

Definition appNameOf (options : CodegenOptions) : string :=
  default "your app" (appName options).

(** The title the README target is given: the app name with the endpoint
    names listed after it. *)
Definition readmeTitle (options : CodegenOptions) : string :=
  appNameOf options +:+ " (Multi-endpoint: "
  +:+ join ", " (endpoints options).*1 +:+ ")".

Definition singleOptions : CodegenOptions :=
  {| endpoints := [("users", sampleEndpoint "https://users/graphql")];
     baseOutputDir := Some "gen"; reactQueryVersion := Some 4%Z;
     appName := Some "portal" |}.

End PlanSpec.

(* ===================================================================== *)
(** ** What the further properties of the fetcher speak of *)
(* ===================================================================== *)

Module FetcherCases.
Import Fetcher FetcherSpec.

(** [null] or [undefined] *)
Definition nullish (v : Json) : bool :=
  match v with
  | Undefined | Null => true
  | _ => false
  end.

(** A plain object *)
Definition isObj (v : Json) : bool :=
  match v with
  | Obj _ => true
  | _ => false
  end.

(** An object or an array, on which [in] can be asked *)
Definition isObjectLike (v : Json) : bool :=
  match v with
  | Obj _ | Arr _ => true
  | _ => false
  end.

(** The request made when no options count. *)
Definition defaultRequest (gateway query : string) (variables : Json) : Request :=
  {| url := Str gateway; method := "POST"; headers := contentType;
     body_query := query; body_variables := variables |}.

(** A network that rejects every request. *)
Definition unreachable (reason : Json) : Request → Response :=
  fun _ => Rejected reason.

End FetcherCases.

(* ===================================================================== *)
(** ** Template helpers of the README plugin (in src/cli.js) *)
(* ===================================================================== *)

Module Helpers.

Definition upperChar (c : ascii) : ascii :=
  if Str.isLower c then ascii_of_nat (nat_of_ascii c - 32) else c.

(** The helper [camelCase] of both plugins:
    [str.charAt(0).toLowerCase() + str.slice(1)], the expression
    [createUtilsFactory] uses for its keys. *)
Definition camelCase (s : string) : string := Str.lowerFirst s.

(** The helper [pascalCase] of the README plugin:
    [str.charAt(0).toUpperCase() + str.slice(1)] on ASCII text. *)
Definition pascalCase (s : string) : string :=
  match s with
  | EmptyString => EmptyString
  | String c s' => String (upperChar c) s'
  end.

(** The name starts with a lower-case letter. *)
Definition startsLower (s : string) : bool :=
  match s with
  | String c _ => Str.isLower c
  | EmptyString => false
  end.

End Helpers.

(* ===================================================================== *)
(** ** The scripts the setup adds to package.json (scripts/setup.ts) *)
(* ===================================================================== *)

Module Setup.

(** The three properties of the parsed [package.json] that
    [updatePackageJsonScripts] reads or writes; each may be absent.  The
    function touches nothing else of the file. *)
Record PackageJson := {
  scripts : option (gmap string string);
  devDependencies : option (gmap string string);
  dependencies : option (gmap string string)
}.

(** Truthiness of [o?.[key]]: present and not the empty string. *)
Definition hasEntry (o : option (gmap string string)) (key : string) : bool :=
  match o with
  | Some m =>
      match m !! key with
      | Some s => negb (bool_decide (s = ""))
      | None => false
      end
  | None => false
  end.

Definition hasPortalQuery (p : PackageJson) : bool :=
  hasEntry (devDependencies p) "@repo/portal-query"
  || hasEntry (dependencies p) "@repo/portal-query".

(** The command of the branch taken. *)
Definition gqlCommand (p : PackageJson) : string :=
  if hasPortalQuery p then "query-codegen"
  else "graphql-codegen --config src/libs/gql/codegen.config.ts".

Definition watchCommand (p : PackageJson) : string :=
  if hasPortalQuery p then "query-codegen --watch"
  else "graphql-codegen --config src/libs/gql/codegen.config.ts --watch".

(** Lines 13-33 of [updatePackageJsonScripts]: the object that is written
    back. *)
Definition updatePackageJsonScripts (p : PackageJson) : PackageJson :=
  let scripts0 := default ∅ (scripts p) in
  let scripts1 :=
    if hasPortalQuery p then <["gql" := "query-codegen"]> scripts0
    else <["gql" := "graphql-codegen --config src/libs/gql/codegen.config.ts"]>
           scripts0 in
  let scripts2 :=
    if hasPortalQuery p then
      if hasEntry (Some scripts1) "gql:watch" then scripts1
      else <["gql:watch" := "query-codegen --watch"]> scripts1
    else
      if hasEntry (Some scripts1) "gql:watch" then scripts1
      else <["gql:watch" :=
               "graphql-codegen --config src/libs/gql/codegen.config.ts --watch"]>
             scripts1 in
  {| scripts := Some scripts2;
     devDependencies := devDependencies p;
     dependencies := dependencies p |}.

Definition samplePackage : PackageJson :=
  {| scripts := Some {[ "build" := "tsc"; "gql:watch" := "my-watch" ]};
     devDependencies := Some {[ "@repo/portal-query" := "workspace:*" ]};
     dependencies := None |}.

End Setup.

(* ===================================================================== *)
(** ** Own properties, refetching, and the steps of a short name *)
(* ===================================================================== *)

Module OwnSpec.
Import Js Client Utils Cache CacheSpec.

(** The name is none of those [Object.prototype] defines, so reading it
    on a plain object finds an own property or nothing. *)
Definition plainName (k : string) : Prop :=
  k ∉ PluginSpec.objectPrototypeKeys.

(** Every key of the filter object is a plain name. *)
Definition plainKeys (fs : gmap string Value) : Prop :=
  ∀ k : string, is_Some (fs !! k) → plainName k.

Definition plainFilters (filters : option (gmap string Value)) : Prop :=
  match filters with
  | Some fs => plainKeys fs
  | None => True
  end.

(** [c'] is [c] with a new execution triggered for exactly the entries
    satisfying [P], under the same key, and every other entry as it was.
    Nothing is said of the data of a refetched entry. *)
Definition refetchesExactly (P : Query → Prop) (c c' : Store) : Prop :=
  length c' = length c
  ∧ ∀ (i : nat) (q : Query), c !! i = Some q →
      (P q → ∃ q' : Query, c' !! i = Some q'
                           ∧ queryKey q' = queryKey q
                           ∧ fetchCount q' = S (fetchCount q))
      ∧ (¬ P q → c' !! i = Some q).

(** A filter object with the one pair [id: n]. *)
Definition idFilter (n : Z) : gmap string Value := {[ "id" := JNum n ]}.

End OwnSpec.

Module NamingSpec.

(** Modelled from the spec: a leading token is stripped, that is [s]
    loses [token] when it starts with it and is kept otherwise. *)
Definition stripLeading (token s : string) : string :=
  default s (Str.stripPrefix token s).

(** Modelled from the spec: a leading [Get|Create|Update|Delete] is
    stripped, the first of the alternatives that starts [s]. *)
Fixpoint stripLeadingOneOf (tokens : list string) (s : string) : string :=
  match tokens with
  | [] => s
  | token :: tokens' =>
      match Str.stripPrefix token s with
      | Some r => r
      | None => stripLeadingOneOf tokens' s
      end
  end.

(** Modelled from the spec: an embedded token is stripped, that is [s]
    loses the first occurrence of [token], read from the left. *)
Fixpoint removeFirst (token s : string) : string :=
  match Str.stripPrefix token s with
  | Some r => r
  | None =>
      match s with
      | EmptyString => EmptyString
      | String c s' => String c (removeFirst token s')
      end
  end.

Definition operationVerbs : list string := ["Get"; "Create"; "Update"; "Delete"].

(** Modelled from the spec: with [NotificationService] in the name, the
    prefix made of a verb and [NotificationService] is stripped as one
    unit, then a further leading [Get]; otherwise the leading verb, the
    embedded [Service], a leading [User] and a leading [Booking] are
    stripped in this order.  ["get"] is put in front. *)
Definition inferShortName (operationName : string) : string :=
  "get" +:+
  (if Str.includes "NotificationService" operationName then
     stripLeading "Get"
       (stripLeadingOneOf
          ((fun verb => verb +:+ "NotificationService") <$> operationVerbs)
          operationName)
   else
     stripLeading "Booking"
       (stripLeading "User"
          (removeFirst "Service"
             (stripLeadingOneOf operationVerbs operationName)))).

End NamingSpec.

(* ===================================================================== *)
(** * Properties *)
(* ===================================================================== *)

(** ** Naming inference *)

Module NamingProps.
Import Regex Naming.

Lemma stripPrefix_app (p s : string) : Str.stripPrefix p (p +:+ s) = Some s.
Proof.
  induction p as [|a p IH]; [done|].
  change (String a p +:+ s) with (String a (p +:+ s)). simpl.
  by rewrite decide_True.
Qed.

Lemma search_lit_none (sub s : string) (i : nat) :
  Str.includes sub s = false → search [Lit sub] s i = None.
Proof.
  revert i. induction s as [|c s IH]; intros i; simpl.
  - by destruct (Str.stripPrefix sub "").
  - destruct (Str.stripPrefix sub (String c s)); [done|]. apply IH.
Qed.

Lemma replace_anywhere_absent (sub s : string) :
  Str.includes sub s = false → replace (anywhere [Lit sub]) "" s = s.
Proof.
  intros H. unfold replace, exec, anywhere; simpl anchored; simpl items.
  by rewrite (search_lit_none _ _ _ H).
Qed.

Lemma replace_start_absent (l s : string) :
  Str.stripPrefix l s = None → replace (start [Lit l]) "" s = s.
Proof. intros H. unfold replace, exec, start; simpl. by rewrite H. Qed.

Lemma replace_verb (verb x : string) :
  verb ∈ verbs → replace (start [Alt verbs]) "" (verb +:+ x) = x.
Proof.
  unfold verbs. rewrite !elem_of_cons, elem_of_nil.
  intros [->|[->|[->|[->|[]]]]]; reflexivity.
Qed.

Lemma backtrack_groups (k : string → option Found) (s : string) (n : nat)
    (f : Found) :
  backtrack k s n = Some f → groups f ≠ [].
Proof.
  induction n as [|n IH]; cbn [backtrack]; [done|].
  destruct (k (Str.drop (S n) s)) as [f'|]; [|apply IH].
  intros Hf. injection Hf as Hf. by rewrite <- Hf.
Qed.

(** [match[1]] is there whenever one of the rules matches, so [transform]
    never reads the default of [hd]. *)
Lemma patterns_capture (pattern : Regex) (tr : list string → string)
    (s : string) (m : list string) :
  (pattern, tr) ∈ patterns → matchGroups pattern s = Some m → m ≠ [].
Proof.
  unfold patterns. rewrite !elem_of_cons, elem_of_nil.
  intros H; destruct_or!; try done; simplify_eq;
    unfold matchGroups, exec, start; cbn [anchored items matchHere];
    repeat match goal with
           | |- context [Str.stripPrefix ?l s] => destruct (Str.stripPrefix l s); [|done]
           end;
    match goal with
    | |- context [backtrack ?k ?t ?n] =>
        destruct (backtrack k t n) eqn:Hb; [|done];
        intros Hm; injection Hm as <-; by eapply backtrack_groups
    end.
Qed.

(** C3.  [extractServiceName] on the three names of the specification:
    ["CreateBookingRequest"] gives ["bookingrequests"] and
    ["SubscribeToFeed"] falls through to ["general"], but
    ["GetUserProfile"] gives ["userprofiles"], not the ["users"] that the
    function's own comment announces: [(\w+)] takes the whole remainder. *)
Theorem extractServiceName_examples :
  extractServiceName "GetUserProfile" = "userprofiles"
  ∧ extractServiceName "CreateBookingRequest" = "bookingrequests"
  ∧ extractServiceName "SubscribeToFeed" = "general".
Proof. repeat split; reflexivity. Qed.

(** C7, as stated: [extractShortName "UpdateFoo"] is not ["getUpdateFoo"]. *)
Lemma extractShortName_UpdateFoo_counterexample :
  extractShortName "UpdateFoo" ≠ "getUpdateFoo".
Proof. discriminate. Qed.

(** C7, amended.  The result always starts with ["get"], whatever kind of
    operation the name belongs to; on the general path the leading verb is
    removed first, a mutation's as well as a query's, so ["UpdateFoo"]
    becomes ["getFoo"]. *)
Theorem extractShortName_strips_verb :
  (∀ verb x : string,
      verb ∈ verbs →
      Str.includes "NotificationService" (verb +:+ x) = false →
      Str.includes "Service" x = false →
      Str.stripPrefix "User" x = None →
      Str.stripPrefix "Booking" x = None →
      extractShortName (verb +:+ x) = "get" +:+ x)
  ∧ extractShortName "UpdateFoo" = "getFoo"
  ∧ extractShortName "GetFoo" = "getFoo".
Proof.
  split; [|split; reflexivity].
  intros verb x Hverb Hnotif Hservice Huser Hbooking.
  unfold extractShortName, shortName. rewrite Hnotif.
  rewrite (replace_verb _ _ Hverb).
  rewrite (replace_anywhere_absent _ _ Hservice).
  rewrite (replace_start_absent _ _ Huser).
  by rewrite (replace_start_absent _ _ Hbooking).
Qed.

Lemma extractShortName_strips_verb_witness :
  extractShortName ("Delete" +:+ "Invoice") = "get" +:+ "Invoice".
Proof.
  apply (proj1 extractShortName_strips_verb "Delete" "Invoice");
    [do 3 apply list_elem_of_further; apply list_elem_of_here | reflexivity..].
Defined.

End NamingProps.

(** ** Query keys *)

Module KeyProps.
Import Js Client Utils.

Lemma createQueryKeys_snoc (operations : list string) (operationName : string) :
  createQueryKeys (operations ++ [operationName])
  = <[operationName := queryKeyOf operationName]> (createQueryKeys operations).
Proof. unfold createQueryKeys. by rewrite foldl_app. Qed.

(** The factory holds, under each listed name, that name's key function
    (listing a name twice stores the same function again). *)
Lemma createQueryKeys_lookup (operations : list string) (operationName : string) :
  operationName ∈ operations →
  createQueryKeys operations !! operationName = Some (queryKeyOf operationName).
Proof.
  induction operations as [|x l IH] using rev_ind; [by intros ?%elem_of_nil|].
  rewrite createQueryKeys_snoc. intros Hin.
  destruct (decide (x = operationName)) as [->|Hne].
  - apply lookup_insert_eq.
  - rewrite lookup_insert_ne by done. apply IH.
    apply elem_of_app in Hin as [?|Hin]; [done|].
    by apply list_elem_of_singleton in Hin.
Qed.

Lemma createQueryKeys_lookup_None (operations : list string) (operationName : string) :
  operationName ∉ operations → createQueryKeys operations !! operationName = None.
Proof.
  induction operations as [|x l IH] using rev_ind; [done|].
  rewrite createQueryKeys_snoc, not_elem_of_app, list_elem_of_singleton.
  intros [? ?]. rewrite lookup_insert_ne by done. by apply IH.
Qed.



End KeyProps.

(** ** The utils object *)

Module UtilsProps.
Import Js Client Utils Cache CacheSpec.

Section Handles.
Context {C : Type}.
Variable config : UtilsConfig.
Variable queryClient : QueryClient C.

Lemma groupUtils_snoc (operationNames : list string) (operationName : string) :
  groupUtils config queryClient (operationNames ++ [operationName])
  = <[Str.lowerFirst operationName := operationUtils config queryClient operationName]>
      (groupUtils config queryClient operationNames).
Proof. unfold groupUtils. by rewrite foldl_app. Qed.

Lemma groupUtils_lookup (operationNames : list string) (name : string)
    (h : OperationUtils C) :
  groupUtils config queryClient operationNames !! name = Some h →
  ∃ op : string,
    op ∈ operationNames ∧ name = Str.lowerFirst op
    ∧ h = operationUtils config queryClient op.
Proof.
  induction operationNames as [|x l IH] using rev_ind; [done|].
  rewrite groupUtils_snoc. intros [[<- <-]|[_ Hl]]%lookup_insert_Some.
  - exists x. split; [|done]. apply elem_of_app; right. apply list_elem_of_here.
  - destruct (IH Hl) as (op & ? & ? & ?). exists op.
    split; [|done]. apply elem_of_app; by left.
Qed.

(** Every handle of the utils object is the record built for one of the
    operation names of its group. *)
Lemma createUtils_handle (g name : string) (grp : gmap string (OperationUtils C))
    (h : OperationUtils C) :
  createUtilsFactory config queryClient !! g = Some grp →
  grp !! name = Some h →
  ∃ (operationNames : list string) (op : string),
    groups config !! g = Some operationNames
    ∧ op ∈ operationNames ∧ name = Str.lowerFirst op
    ∧ h = operationUtils config queryClient op.
Proof.
  unfold createUtilsFactory, createUtils. rewrite lookup_fmap.
  intros (names & Hg & ->)%fmap_Some Hh.
  destruct (groupUtils_lookup _ _ _ Hh) as (op & ? & ? & ?).
  by exists names, op.
Qed.

End Handles.

(** *** Reading and writing *)

Lemma read_write (k : QueryKey) (u : DataOrUpdater) (c : Store) :
  read k (write k u c) = applyUpdater u (read k c).
Proof.
  induction c as [|q c IH]; simpl.
  - by rewrite decide_True.
  - destruct (decide (queryKey q = k)) as [Hk|Hk]; simpl.
    + by rewrite decide_True.
    + by rewrite decide_False.
Qed.

Lemma read_write_ne (k k' : QueryKey) (u : DataOrUpdater) (c : Store) :
  k ≠ k' → read k' (write k u c) = read k' c.
Proof.
  intros Hne. induction c as [|q c IH]; simpl.
  - by rewrite decide_False.
  - destruct (decide (queryKey q = k)) as [Hk|Hk]; simpl.
    + subst k. by rewrite !decide_False.
    + destruct (decide (queryKey q = k')); [done|apply IH].
Qed.

(** C9, as stated: not every handle of a utils object writes and reads
    back.  The config takes [queryKeys] and [groups] separately; here
    [groups] lists [GetOrder] and [queryKeys] was built for [GetUser]
    only.  The handle [orders.getOrder] is there, and its [setData] and
    [getData] raise a [TypeError] for every argument and cache. *)
Lemma setData_uncovered_counterexample :
  ∃ (grp : gmap string (OperationUtils Store)) (h : OperationUtils Store),
    createUtilsFactory UtilsSpec.partialConfig Cache.client !! "orders" = Some grp
    ∧ grp !! "getOrder" = Some h
    ∧ OwnSpec.plainName "GetOrder"
    ∧ ∀ (d v : Any) (c : Store),
        setData h (Data d) v c = TypeError
        ∧ getData h v c = TypeError.
Proof.
  eexists _, _. split; [reflexivity|]. split; [reflexivity|]. split.
  - unfold OwnSpec.plainName, PluginSpec.objectPrototypeKeys.
    rewrite !elem_of_cons, elem_of_nil. intros H. destruct_or!; done.
  - intros d v c. split; reflexivity.
Qed.

(** C9, amended.  On a utils object whose key factory was built by
    [createQueryKeys] over a list that holds every grouped operation
    name, a handle's [setData(d, v)] writes, and the [getData(v)] that
    follows reads back [d], both at the key [[op]] or [[op, v]]. *)
Theorem setData_getData (operations : list string)
    (opGroups : gmap string (list string)) (g name : string)
    (grp : gmap string (OperationUtils Store)) (h : OperationUtils Store) :
  (∀ (g' : string) (names : list string) (op : string),
      opGroups !! g' = Some names → op ∈ names → op ∈ operations) →
  createUtilsFactory
    {| queryKeys := createQueryKeys operations; groups := opGroups |}
    Cache.client !! g = Some grp →
  grp !! name = Some h →
  ∃ op : string,
    name = Str.lowerFirst op
    ∧ ∀ (d v : Any) (c : Store),
        ∃ (k : QueryKey) (c' : Store),
          k = (if isUndefined v then [str op] else [str op; v])
          ∧ setData h (Data d) v c = Ok c'
          ∧ c' = setQueryData Cache.client k (Data d) c
          ∧ getData h v c' = Ok d
          ∧ getQueryData Cache.client k c' = d.
Proof.
  intros Hcover Hg Hh.
  destruct (createUtils_handle _ _ _ _ _ _ Hg Hh) as (names & op & Hn & Hop & -> & ->).
  exists op. split; [done|]. intros d v c.
  pose proof (KeyProps.createQueryKeys_lookup operations op (Hcover _ _ _ Hn Hop)) as Hk.
  exists (queryKeyOf op v), (write (queryKeyOf op v) (Data d) c).
  simpl. unfold keyFor; simpl. rewrite Hk.
  repeat split; try done; by rewrite read_write.
Qed.

Lemma setData_getData_witness :
  ∃ op : string,
    "getUser" = Str.lowerFirst op
    ∧ ∀ (d v : Any) (c : Store),
        ∃ (k : QueryKey) (c' : Store),
          k = (if isUndefined v then [str op] else [str op; v])
          ∧ setData (operationUtils usersConfig Cache.client "GetUser") (Data d) v c = Ok c'
          ∧ c' = setQueryData Cache.client k (Data d) c
          ∧ getData (operationUtils usersConfig Cache.client "GetUser") v c' = Ok d
          ∧ getQueryData Cache.client k c' = d.
Proof.
  apply (setData_getData ["GetUser"] {[ "users" := ["GetUser"] ]} "users" "getUser"
           (groupUtils usersConfig Cache.client ["GetUser"])).
  - intros g' names op [<- <-]%lookup_singleton_Some Hop. exact Hop.
  - reflexivity.
  - reflexivity.
Defined.

(** *** Invalidation *)

Lemma startsWith_operation (k : QueryKey) (op : string) :
  startsWith k [str op] = true ↔ head k = Some (str op).
Proof.
  destruct k as [|x k]; simpl; [done|].
  destruct k; simpl; rewrite andb_true_r, bool_decide_eq_true; naive_solver.
Qed.

Lemma optionalProp_typed (q : Query) (k : string) :
  variablesTyped q →
  optionalProp (queryKey q !! 1%nat) k = default JUndefined (variablesOf q !! k).
Proof.
  unfold variablesTyped, variablesOf, optionalProp.
  destruct (queryKey q !! 1%nat) as [[[]|]|]; done.
Qed.

Lemma filterPredicate_spec (fs : gmap string Value) (q : Query) :
  variablesTyped q → filterPredicate fs q = true ↔ matchesFilters fs q.
Proof.
  intros Hq. unfold filterPredicate, matchesFilters.
  rewrite forallb_forall. split.
  - intros H k v Hkv. rewrite <- (optionalProp_typed q k Hq).
    apply elem_of_map_to_list, list_elem_of_In in Hkv.
    specialize (H _ Hkv). simpl in H. by apply bool_decide_eq_true in H.
  - intros H [k v] Hkv%list_elem_of_In%elem_of_map_to_list.
    apply bool_decide_eq_true. rewrite (optionalProp_typed q k Hq). by apply H.
Qed.

Lemma filtersFor_unfiltered (op : string) (filters : option (gmap string Value)) :
  filters = None ∨ filters = Some ∅ →
  filtersFor op filters = {| filterKey := [str op]; predicate := None |}.
Proof. by intros [-> | ->]. Qed.

Lemma filtersFor_filtered (op : string) (fs : gmap string Value) :
  fs ≠ ∅ →
  filtersFor op (Some fs)
  = {| filterKey := [str op]; predicate := Some (filterPredicate fs) |}.
Proof.
  intros Hne. unfold filtersFor.
  destruct (map_to_list fs) eqn:Hl; [by apply map_to_list_empty_iff in Hl|done].
Qed.

Lemma invalidatesExactly_onMatching (P : Query → Prop) (f : QueryFilters) (c : Store) :
  (∀ q : Query, q ∈ c → matchQuery f q = true ↔ P q) →
  invalidatesExactly P c (onMatching markInvalidated f c).
Proof.
  intros HP. unfold invalidatesExactly, onMatching.
  split; [by rewrite length_fmap|].
  intros i q Hi. rewrite list_lookup_fmap, Hi; simpl.
  assert (q ∈ c) as Hin by (apply list_elem_of_lookup; eauto).
  destruct (matchQuery f q) eqn:Hm; split; intros HPq; try done.
  - destruct HPq. by apply HP.
  - apply HP in HPq; [congruence|done].
Qed.

Lemma invalidate_unfold (config : UtilsConfig) (op : string)
    (filters : option (gmap string Value)) (c : Store) :
  invalidate (operationUtils config Cache.client op) filters c
  = onMatching markInvalidated (filtersFor op filters) c.
Proof. reflexivity. Qed.

(** [id] is a name of the caller's, not one of [Object.prototype]'s. *)
Lemma plainKeys_idFilter (n : Z) : OwnSpec.plainKeys (OwnSpec.idFilter n).
Proof.
  intros k [v Hv]. unfold OwnSpec.idFilter in Hv.
  apply lookup_singleton_Some in Hv as [<- _].
  unfold OwnSpec.plainName, PluginSpec.objectPrototypeKeys.
  rewrite !elem_of_cons, elem_of_nil. intros H. destruct_or!; done.
Qed.

(** C2, as stated: an entry whose stored variables lack a filter key is
    invalidated all the same when the filter's value for that key is
    [undefined].  Here the entry is stored under [{}] and the filter is
    [{ id: undefined }]. *)
Lemma invalidate_absent_key_counterexample :
  ∃ (grp : gmap string (OperationUtils Store)) (h : OperationUtils Store),
    createUtilsFactory usersConfig Cache.client !! "users" = Some grp
    ∧ grp !! "getUser" = Some h
    ∧ let fs : gmap string Value := {[ "id" := JUndefined ]} in
      let q := entry [str "GetUser"; ARecord ∅] in
      fs ≠ ∅
      ∧ is_Some (fs !! "id")
      ∧ variablesOf q !! "id" = None
      ∧ isInvalidated q = false
      ∧ invalidate h (Some fs) [q] = [markInvalidated q].
Proof.
  eexists _, _. split; [reflexivity|]. split; [reflexivity|].
  simpl. repeat split.
  - by intros ?%(f_equal (.!! "id")).
  - by eexists.
Qed.

(** C2, amended.  For a handle of the utils object, with [op] its operation
    name: without filters (absent or empty) [invalidate] invalidates exactly
    the entries whose key starts with [op].  With non-empty filters whose
    keys are none of the names [Object.prototype] defines, on a cache
    whose entries have their variables segment absent, [undefined] or a
    plain object, it invalidates exactly those entries of [op] whose
    variables give, for every filter pair [(k, v)], [variables[k] === v],
    a missing property reading as [undefined].  So an entry whose
    variables lack a filter key is left alone whenever the filter's value
    for that key is not [undefined].  [invalidate({id: 1})] leaves an
    entry under [{id: 2}] alone, and [invalidate()] invalidates the
    entries under [{id: 1}] and [{id: 2}]. *)
Theorem invalidate_filters (config : UtilsConfig) (g name : string)
    (grp : gmap string (OperationUtils Store)) (h : OperationUtils Store) :
  createUtilsFactory config Cache.client !! g = Some grp →
  grp !! name = Some h →
  ∃ op : string,
    name = Str.lowerFirst op
    ∧ (∀ (filters : option (gmap string Value)) (c : Store),
          filters = None ∨ filters = Some ∅ →
          invalidatesExactly (forOperation op) c (invalidate h filters c))
    ∧ (∀ (fs : gmap string Value) (c : Store),
          fs ≠ ∅ → OwnSpec.plainKeys fs → Forall variablesTyped c →
          invalidatesExactly
            (fun q => forOperation op q ∧ matchesFilters fs q)
            c (invalidate h (Some fs) c))
    ∧ (∀ (fs : gmap string Value) (c : Store) (i : nat) (q : Query)
         (k : string) (v : Value),
          OwnSpec.plainKeys fs → Forall variablesTyped c →
          c !! i = Some q → variablesOf q !! k = None →
          fs !! k = Some v → v ≠ JUndefined →
          invalidate h (Some fs) c !! i = Some q)
    ∧ (let c := [entry [str op; idIs 1]; entry [str op; idIs 2]] in
       invalidate h (Some {[ "id" := JNum 1 ]}) c
       = [markInvalidated (entry [str op; idIs 1]); entry [str op; idIs 2]]
       ∧ invalidate h None c
         = [markInvalidated (entry [str op; idIs 1]);
            markInvalidated (entry [str op; idIs 2])]).
Proof.
  intros Hg Hh.
  destruct (createUtils_handle _ _ _ _ _ _ Hg Hh) as (names & op & _ & _ & -> & ->).
  exists op. split; [done|].
  assert (Hfiltered : ∀ (fs : gmap string Value) (c : Store),
             fs ≠ ∅ → Forall variablesTyped c →
             invalidatesExactly
               (fun q => forOperation op q ∧ matchesFilters fs q)
               c (invalidate (operationUtils config Cache.client op) (Some fs) c)).
  { intros fs c Hne Hc.
    rewrite invalidate_unfold, (filtersFor_filtered op fs Hne).
    apply invalidatesExactly_onMatching. intros q Hq.
    unfold matchQuery, forOperation; simpl.
    rewrite andb_true_iff, startsWith_operation.
    rewrite filterPredicate_spec; [done|].
    by eapply Forall_forall in Hc. }
  split; [|split; [intros fs c Hne _ Hc; exact (Hfiltered fs c Hne Hc)|split]].
  - intros filters c Hf.
    rewrite invalidate_unfold, (filtersFor_unfiltered op filters Hf).
    apply invalidatesExactly_onMatching. intros q _.
    unfold matchQuery, forOperation; simpl.
    by rewrite andb_true_r, startsWith_operation.
  - intros fs c i q k v _ Hc Hi Hk Hkv Hv.
    assert (fs ≠ ∅) as Hne by (intros ->; by rewrite lookup_empty in Hkv).
    destruct (Hfiltered fs c Hne Hc) as [_ Hall].
    apply (Hall i q Hi). intros [_ Hm].
    specialize (Hm k v Hkv). rewrite Hk in Hm. by subst v.
  - cbv zeta. rewrite !invalidate_unfold, filtersFor_filtered
      by (by intros ?%(f_equal (.!! "id"))).
    unfold onMatching, matchQuery, filterPredicate; simpl.
    rewrite !bool_decide_eq_true_2 by done. simpl.
    by rewrite map_to_list_singleton.
Qed.

Lemma invalidate_filters_witness :
  ∃ op : string,
    "getUser" = Str.lowerFirst op
    ∧ invalidate (operationUtils usersConfig Cache.client "GetUser")
        (Some {[ "id" := JNum 1 ]})
        [entry [str op; idIs 1]; entry [str op; idIs 2]]
      = [markInvalidated (entry [str op; idIs 1]); entry [str op; idIs 2]]
    ∧ invalidate (operationUtils usersConfig Cache.client "GetUser")
        (Some {[ "id" := JNum 1 ]}) [entry [str "GetUser"; ARecord ∅]] !! 0%nat
      = Some (entry [str "GetUser"; ARecord ∅]).
Proof.
  destruct (invalidate_filters usersConfig "users" "getUser"
              (groupUtils usersConfig Cache.client ["GetUser"])
              (operationUtils usersConfig Cache.client "GetUser")
              eq_refl eq_refl) as (op & Hname & _ & _ & Habsent & Hex & _).
  exists op. split; [exact Hname|]. split; [exact Hex|].
  apply (Habsent (OwnSpec.idFilter 1) [entry [str "GetUser"; ARecord ∅]] 0%nat
           (entry [str "GetUser"; ARecord ∅]) "id" (JNum 1)).
  - apply plainKeys_idFilter.
  - repeat constructor.
  - reflexivity.
  - reflexivity.
  - reflexivity.
  - discriminate.
Defined.

End UtilsProps.

(** ** The fetcher *)

Module FetcherProps.
Import Fetcher FetcherSpec.

Lemma readOptions_flat (gateway : string) (props : gmap string Json) :
  props !! "customHeaders" = None → props !! "endpoint" = None →
  readOptions gateway (Obj props) = Ok (Obj props, Str gateway).
Proof.
  intros Hc He. unfold readOptions; simpl.
  rewrite Hc, He. rewrite !bool_decide_eq_false_2 by (by intros [? ?]). done.
Qed.

Lemma readOptions_wrapper (gateway : string) (props : gmap string Json) :
  is_Some (props !! "customHeaders") ∨ is_Some (props !! "endpoint") →
  readOptions gateway (Obj props)
  = Ok (orElse (default Undefined (props !! "customHeaders")) (Obj ∅),
        orElse (default Undefined (props !! "endpoint")) (Str gateway)).
Proof.
  intros H. unfold readOptions; simpl.
  destruct H as [H|H]; rewrite (bool_decide_eq_true_2 _ H); simpl; [done|].
  by rewrite orb_true_r.
Qed.

(** The literal denotes the pasted gateway, where it denotes anything. *)
Lemma literalValue_Some (pasted gateway : string) :
  literalValue pasted = Some gateway →
  gateway = pasted ∧ literalSafe pasted = true.
Proof.
  unfold literalValue. destruct (literalSafe pasted); [|done].
  by intros [= <-].
Qed.

(** C6.  The fetcher generated for a configured gateway that is a
    request target written in printable ASCII without backslash or double
    quote (so that the literal of the fetcher's text denotes it).  An [options]
    object with neither a [customHeaders] nor an [endpoint] property is
    used whole as the header map, on top of the default [Content-Type]
    (which it may override), and the request goes to the configured
    gateway.  With either property present it is read as the wrapper: the
    headers are those of [customHeaders] (none if absent), and the target
    is [endpoint] if one is supplied, the configured gateway otherwise. *)
Theorem fetcher_options (configured gateway query : string) (variables : Json)
    (props : gmap string Json) :
  literalValue configured = Some gateway →
  (props !! "customHeaders" = None → props !! "endpoint" = None →
     ∃ req : Request,
       buildRequest gateway query variables (Obj props) = Ok req
       ∧ url req = Str configured
       ∧ headers req = props ∪ contentType
       ∧ (∀ (k : string) (v : Json), props !! k = Some v → headers req !! k = Some v)
       ∧ (props !! "Content-Type" = None →
            headers req !! "Content-Type" = Some (Str "application/json")))
  ∧ (is_Some (props !! "customHeaders") ∨ is_Some (props !! "endpoint") →
     ∃ req : Request,
       buildRequest gateway query variables (Obj props) = Ok req
       ∧ (props !! "endpoint" = None → url req = Str configured)
       ∧ (∀ e : string, props !! "endpoint" = Some (Str e) → e ≠ "" →
            url req = Str e)
       ∧ (props !! "customHeaders" = None → headers req = contentType)
       ∧ (∀ h : gmap string Json, props !! "customHeaders" = Some (Obj h) →
            headers req = h ∪ contentType)).
Proof.
  intros Hliteral. apply literalValue_Some in Hliteral as [-> _].
  split.
  - intros Hc He. eexists. unfold buildRequest.
    rewrite (readOptions_flat _ _ Hc He). split; [reflexivity|]. simpl.
    repeat split.
    + intros k v Hk. by apply lookup_union_Some_l.
    + intros Hct. rewrite lookup_union_r by done. apply lookup_singleton_eq.
  - intros H. eexists. unfold buildRequest.
    rewrite (readOptions_wrapper _ _ H). split; [reflexivity|]. simpl.
    repeat split.
    + by intros ->.
    + intros e -> He. unfold orElse; simpl. by rewrite bool_decide_eq_false_2.
    + intros ->. simpl. by rewrite (left_id_L ∅ (∪)).
    + by intros h ->.
Qed.

Lemma fetcher_options_witness :
  ∃ req : Request,
    buildRequest "https://gw/graphql" "query Q { a }" Undefined
      (Obj {[ "Authorization" := Str "Bearer t" ]}) = Ok req
    ∧ url req = Str "https://gw/graphql"
    ∧ headers req = {[ "Authorization" := Str "Bearer t" ]} ∪ contentType.
Proof.
  destruct (proj1 (fetcher_options "https://gw/graphql" "https://gw/graphql"
                     "query Q { a }" Undefined
                     {[ "Authorization" := Str "Bearer t" ]} eq_refl))
    as (req & Hreq & Hurl & Hheaders & _); [reflexivity | reflexivity |].
  by exists req.
Defined.

Lemma fetcher_settles (gateway query : string) (variables options : Json)
    (network : Request → Response) (req : Request) (json : Json) :
  buildRequest gateway query variables options = Ok req →
  network req = Parsed json →
  fetcher gateway query variables options network = settle json.
Proof. intros Hreq Hnet. unfold fetcher. by rewrite Hreq, Hnet. Qed.

(** C4.  When the parsed body has a non-empty [errors] array, the operation
    fails with the [message] of the first error itself as the thrown value;
    [{errors: [{message: "boom"}], data: null}] fails with ["boom"].  When
    the body has no [errors] (or [errors: null]) it resolves with [data]. *)
Theorem fetcher_errors (gateway query : string) (variables options : Json)
    (network : Request → Response) (req : Request) :
  buildRequest gateway query variables options = Ok req →
  (∀ (body error : gmap string Json) (others : list Json),
      network req = Parsed (Obj body) →
      body !! "errors" = Some (Arr (Obj error :: others)) →
      fetcher gateway query variables options network
      = Fail (Thrown (default Undefined (error !! "message"))))
  ∧ (network req = Parsed boomBody →
      fetcher gateway query variables options network
      = Fail (Thrown (Str "boom")))
  ∧ (∀ body : gmap string Json,
      network req = Parsed (Obj body) →
      body !! "errors" = None ∨ body !! "errors" = Some Null →
      fetcher gateway query variables options network
      = Ok (default Undefined (body !! "data"))).
Proof.
  intros Hreq. repeat split.
  - intros body error others Hnet Herr.
    rewrite (fetcher_settles _ _ _ _ _ _ _ Hreq Hnet).
    unfold settle; simpl. by rewrite Herr.
  - intros Hnet. by rewrite (fetcher_settles _ _ _ _ _ _ _ Hreq Hnet).
  - intros body Hnet Herr.
    rewrite (fetcher_settles _ _ _ _ _ _ _ Hreq Hnet).
    unfold settle; simpl. by destruct Herr as [-> | ->].
Qed.

Lemma fetcher_errors_witness :
  fetcher "https://gw/graphql" "query Q { a }" Undefined Undefined (respond boomBody)
  = Fail (Thrown (Str "boom")).
Proof.
  eapply (proj1 (proj2 (fetcher_errors "https://gw/graphql" "query Q { a }"
                          Undefined Undefined (respond boomBody) _ eq_refl))).
  reflexivity.
Defined.

(** C10, as stated: with [errors: []] the operation does not fail by
    throwing an [undefined] message; destructuring the missing first
    element raises a [TypeError] before any [throw]. *)
Lemma fetcher_empty_errors_counterexample :
  fetcher "https://gw/graphql" "query Q { a }" Undefined Undefined
    (respond emptyErrorsBody)
  ≠ Fail (Thrown Undefined)
  ∧ fetcher "https://gw/graphql" "query Q { a }" Undefined Undefined
      (respond emptyErrorsBody)
    = Fail TypeError.
Proof. split; [discriminate | reflexivity]. Qed.

(** C10, amended.  A body with [errors: []] makes the operation fail, with
    the [TypeError] of destructuring a missing first element, instead of
    resolving with [data]; and whatever truthy value [errors] has, the
    operation fails and never resolves. *)
Theorem fetcher_truthy_errors (gateway query : string) (variables options : Json)
    (network : Request → Response) (req : Request) (body : gmap string Json) :
  buildRequest gateway query variables options = Ok req →
  network req = Parsed (Obj body) →
  (body !! "errors" = Some (Arr []) →
     fetcher gateway query variables options network = Fail TypeError)
  ∧ (∀ errors : Json,
       body !! "errors" = Some errors → truthy errors = true →
       ∃ f : Failure,
         fetcher gateway query variables options network = Fail f).
Proof.
  intros Hreq Hnet.
  rewrite (fetcher_settles _ _ _ _ _ _ _ Hreq Hnet).
  unfold settle; simpl. split.
  - by intros ->.
  - intros errors -> Ht. simpl. rewrite Ht.
    destruct (first errors) as [e|f]; [|by eexists].
    destruct (getProp "message" e); by eexists.
Qed.

Lemma fetcher_truthy_errors_witness :
  fetcher "https://gw/graphql" "query Q { a }" Undefined Undefined
    (respond emptyErrorsBody)
  = Fail TypeError.
Proof.
  eapply (proj1 (fetcher_truthy_errors "https://gw/graphql" "query Q { a }"
                   Undefined Undefined (respond emptyErrorsBody) _ _
                   eq_refl eq_refl)).
  reflexivity.
Defined.

End FetcherProps.

(** ** The generation plan *)

Module CodegenProps.
Import Codegen CodegenSpec.

(** *** Strings as lists of characters *)

Lemma append_cons (a : ascii) (s t : string) :
  String a s +:+ t = String a (s +:+ t).
Proof. reflexivity. Qed.

Lemma append_assoc (s t u : string) : (s +:+ t) +:+ u = s +:+ (t +:+ u).
Proof.
  induction s as [|a s IH]; [done|]. by rewrite !append_cons, IH.
Qed.

Lemma chars_append (s t : string) :
  list_ascii_of_string (s +:+ t)
  = (list_ascii_of_string s ++ list_ascii_of_string t)%list.
Proof.
  induction s as [|a s IH]; [done|]. rewrite append_cons. simpl. by rewrite IH.
Qed.

Lemma chars_inj (s t : string) :
  list_ascii_of_string s = list_ascii_of_string t → s = t.
Proof.
  intros H. rewrite <- (string_of_list_ascii_of_string s),
    <- (string_of_list_ascii_of_string t). by rewrite H.
Qed.

(** Read from the end: what two texts with given endings must agree on. *)
Lemma append_rev (a b s t : string) :
  a +:+ s = b +:+ t →
  (rev (list_ascii_of_string s) ++ rev (list_ascii_of_string a))%list
  = (rev (list_ascii_of_string t) ++ rev (list_ascii_of_string b))%list.
Proof.
  intros H. apply (f_equal list_ascii_of_string) in H.
  rewrite !chars_append in H. apply (f_equal (@rev ascii)) in H.
  by rewrite !rev_app_distr in H.
Qed.

Lemma append_inv_tail (a b s : string) : a +:+ s = b +:+ s → a = b.
Proof.
  intros H. apply (f_equal list_ascii_of_string) in H.
  rewrite !chars_append in H. apply app_inv_tail in H. by apply chars_inj.
Qed.

(** The four endings tell the paths of one endpoint apart, and a path with
    one of them determines the endpoint name. *)
Lemma suffix_unique (a b s t : string) :
  s ∈ suffixes → t ∈ suffixes → a +:+ s = b +:+ t → a = b ∧ s = t.
Proof.
  unfold suffixes. rewrite !elem_of_cons, !elem_of_nil.
  intros [->|[->|[->|[->|[]]]]] [->|[->|[->|[->|[]]]]] H;
    first [ split; [by apply append_inv_tail in H | done]
          | apply append_rev in H; simpl in H; discriminate ].
Qed.

Lemma suffix_not_readme (a s : string) :
  s ∈ suffixes → a +:+ s ≠ "../README.md".
Proof.
  unfold suffixes. rewrite !elem_of_cons, !elem_of_nil.
  intros [->|[->|[->|[->|[]]]]] H;
    change "../README.md" with ("" +:+ "../README.md") in H;
    apply append_rev in H; simpl in H; discriminate.
Qed.

(** *** The paths assigned *)

Section Plan.
Variable pluginPath : string → string.

Lemma endpointTargets_paths (options : CodegenOptions) (version : Z)
    (entry : string * EndpointConfig) :
  (endpointTargets pluginPath (baseDirOf options) version entry).*1
  = endpointPaths options entry.1.
Proof.
  destruct entry as [name c]. unfold endpointPaths, endpointPath, suffixes.
  simpl. by rewrite !append_assoc.
Qed.

Lemma readmeTarget_paths (options : CodegenOptions) (app : string) :
  (readmeTarget pluginPath (baseDirOf options) app (endpoints options)).*1
  = readmePaths options.
Proof.
  unfold readmeTarget, readmePaths, readmePath.
  by destruct (endpoints options) as [|[name c] l].
Qed.

Lemma fmap_bind {A B D : Type} (g : B → D) (f : A → list B) (l : list A) :
  g <$> (l ≫= f) = l ≫= (fun x => g <$> f x).
Proof.
  induction l as [|x l IH]; [done|]. by rewrite !bind_cons, fmap_app, IH.
Qed.

(** The sequence of paths assigned: four per endpoint name, then the
    documentation path. *)
Lemma assignments_paths (options : CodegenOptions) :
  (assignments pluginPath options).*1
  = (((endpoints options).*1 ≫= endpointPaths options)
     ++ readmePaths options)%list.
Proof.
  unfold assignments. rewrite fmap_app, fmap_bind, list_fmap_bind.
  fold (baseDirOf options). rewrite readmeTarget_paths. f_equal.
  apply list_bind_ext; [|done]. intros entry. apply endpointTargets_paths.
Qed.

Lemma elem_of_endpointPaths (options : CodegenOptions) (name path : string) :
  path ∈ endpointPaths options name
  ↔ ∃ suffix : string, suffix ∈ suffixes ∧ path = endpointPath options name suffix.
Proof.
  unfold endpointPaths. rewrite list_elem_of_fmap.
  split; intros (suffix & ? & ?); by exists suffix.
Qed.

Lemma endpointPath_inj (options : CodegenOptions) (n1 n2 s1 s2 : string) :
  s1 ∈ suffixes → s2 ∈ suffixes →
  endpointPath options n1 s1 = endpointPath options n2 s2 → n1 = n2 ∧ s1 = s2.
Proof.
  unfold endpointPath. intros H1 H2 H.
  do 2 apply String.app_inj in H. by apply suffix_unique.
Qed.

Lemma endpointPath_not_readme (options : CodegenOptions) (name suffix : string) :
  suffix ∈ suffixes → endpointPath options name suffix ≠ readmePath options.
Proof.
  unfold endpointPath, readmePath. intros Hs H.
  change "/../README.md" with ("/" +:+ "../README.md") in H.
  do 2 apply String.app_inj in H. by apply suffix_not_readme in H.
Qed.

Lemma suffixes_NoDup : NoDup suffixes.
Proof. unfold suffixes. apply NoDup_ListNoDup. repeat constructor; simpl; intuition discriminate. Qed.

Lemma paths_NoDup (options : CodegenOptions) :
  NoDup (endpoints options).*1 → NoDup (assignments pluginPath options).*1.
Proof.
  intros Hnames. rewrite assignments_paths. apply NoDup_app. split_and!.
  - apply NoDup_bind; [| |done].
    + intros n1 n2 path _ _ (s1 & Hs1 & ->)%elem_of_endpointPaths
        (s2 & Hs2 & H)%elem_of_endpointPaths.
      by apply endpointPath_inj in H as [? _].
    + intros name _. unfold endpointPaths.
      apply NoDup_fmap_2_strong; [|apply suffixes_NoDup].
      intros s1 s2 Hs1 Hs2 H. by apply endpointPath_inj in H as [_ ?].
  - intros path (name & (s & Hs & ->)%elem_of_endpointPaths & _)%list_elem_of_bind.
    unfold readmePaths. destruct (endpoints options); [by intros ?%elem_of_nil|].
    intros ?%list_elem_of_singleton. by eapply endpointPath_not_readme.
  - unfold readmePaths. destruct (endpoints options); [constructor|].
    apply NoDup_singleton.
Qed.

Lemma paths_length (options : CodegenOptions) :
  length (assignments pluginPath options).*1
  = 4 * length (endpoints options) + readmeCount options.
Proof.
  rewrite assignments_paths, length_app. f_equal.
  - rewrite <- (length_fmap fst (endpoints options)).
    induction ((endpoints options).*1) as [|n l IH]; [done|].
    rewrite bind_cons, length_app, IH. simpl. lia.
  - unfold readmePaths, readmeCount. by destruct (endpoints options).
Qed.

(** *** The object after the assignments *)

Lemma assignAll_snoc (l : list (string * Target)) (kv : string * Target) :
  assignAll (l ++ [kv]) = <[kv.1 := kv.2]> (assignAll l).
Proof. unfold assignAll. by rewrite foldl_app. Qed.

Lemma assignAll_dom (l : list (string * Target)) :
  dom (assignAll l) =@{gset string} list_to_set l.*1.
Proof.
  induction l as [|kv l IH] using rev_ind; [apply dom_empty_L|].
  rewrite assignAll_snoc, dom_insert_L, IH, fmap_app. simpl.
  rewrite list_to_set_snoc_L. apply (comm_L (∪)).
Qed.

Lemma assignAll_size (l : list (string * Target)) :
  NoDup l.*1 → size (assignAll l) = length l.*1.
Proof.
  intros Hl. rewrite <- size_dom, assignAll_dom. by apply size_list_to_set.
Qed.

Lemma elem_of_paths (options : CodegenOptions) (path : string) :
  path ∈ (assignments pluginPath options).*1
  ↔ (∃ name suffix : string,
        name ∈ (endpoints options).*1 ∧ suffix ∈ suffixes
        ∧ path = endpointPath options name suffix)
    ∨ (path = readmePath options ∧ endpoints options ≠ []).
Proof.
  rewrite assignments_paths, elem_of_app, list_elem_of_bind.
  split; intros [H|H]; [left|right|left|right].
  - destruct H as (name & (suffix & ? & ?)%elem_of_endpointPaths & ?).
    by exists name, suffix.
  - unfold readmePaths in H. destruct (endpoints options); [by apply elem_of_nil in H|].
    by apply list_elem_of_singleton in H.
  - destruct H as (name & suffix & ? & ? & ?). exists name.
    split; [|done]. apply elem_of_endpointPaths. by exists suffix.
  - destruct H as [-> Hne]. unfold readmePaths.
    destruct (endpoints options); [done|]. apply list_elem_of_here.
Qed.

(** C1.  With each endpoint name listed once, the assignments of
    [createCodegenConfig] go to pairwise distinct paths, so the plan holds
    one target per assignment: four per endpoint, and one more, the
    documentation target, exactly when there is an endpoint.  With no
    endpoint the plan is empty. *)
Theorem createCodegenConfig_targets (options : CodegenOptions) :
  NoDup (endpoints options).*1 →
  let plan := createCodegenConfig pluginPath options in
  let paths := (assignments pluginPath options).*1 in
  NoDup paths
  ∧ dom (generates plan) =@{gset string} list_to_set paths
  ∧ size (generates plan)
    = 4 * length (endpoints options) + readmeCount options
  ∧ (∀ name suffix : string,
        name ∈ (endpoints options).*1 → suffix ∈ suffixes →
        is_Some (generates plan !! endpointPath options name suffix))
  ∧ (is_Some (generates plan !! readmePath options) ↔ endpoints options ≠ [])
  ∧ (endpoints options = [] → generates plan = ∅).
Proof.
  intros Hnames plan paths.
  pose proof (paths_NoDup options Hnames) as Hnodup.
  pose proof (assignAll_dom (assignments pluginPath options)) as Hdom.
  assert (∀ path : string,
             is_Some (generates plan !! path)
             ↔ path ∈ (assignments pluginPath options).*1) as Hin.
  { intros path. unfold plan; simpl.
    by rewrite <- elem_of_dom, Hdom, elem_of_list_to_set. }
  split_and!.
  - exact Hnodup.
  - exact Hdom.
  - unfold plan; simpl. rewrite (assignAll_size _ Hnodup). apply paths_length.
  - intros name suffix Hname Hsuffix. apply Hin, elem_of_paths.
    left. by exists name, suffix.
  - rewrite Hin, elem_of_paths. split; [|by right].
    intros [(name & suffix & _ & Hs & H)|[_ ?]]; [|done].
    symmetry in H. by apply endpointPath_not_readme in H.
  - intros Hnil. unfold plan, createCodegenConfig, assignments; simpl.
    by rewrite Hnil.
Qed.

End Plan.

Lemma createCodegenConfig_targets_witness :
  size (generates (createCodegenConfig (String.append "/pkg/dist/plugins/")
                     sampleOptions)) = 9.
Proof.
  apply (createCodegenConfig_targets (String.append "/pkg/dist/plugins/")
           sampleOptions).
  apply NoDup_ListNoDup. repeat constructor; simpl; intuition discriminate.
Defined.

End CodegenProps.

(** ** More on naming inference *)

Module NamingMore.
Import Regex Naming.

Lemma lowerChar_not_upper (c : ascii) : Str.isUpper (Str.lowerChar c) = false.
Proof. destruct c as [[] [] [] [] [] [] [] []]; reflexivity. Qed.

Lemma lowerChar_idemp (c : ascii) : Str.lowerChar (Str.lowerChar c) = Str.lowerChar c.
Proof. unfold Str.lowerChar at 1. by rewrite lowerChar_not_upper. Qed.

Lemma toLowerCase_idemp (s : string) :
  Str.toLowerCase (Str.toLowerCase s) = Str.toLowerCase s.
Proof. induction s as [|c s IH]; simpl; [done|]. by rewrite lowerChar_idemp, IH. Qed.

Lemma toLowerCase_app (s t : string) :
  Str.toLowerCase (s +:+ t) = Str.toLowerCase s +:+ Str.toLowerCase t.
Proof.
  induction s as [|c s IH]; [done|].
  rewrite CodegenProps.append_cons. simpl.
  by rewrite IH, CodegenProps.append_cons.
Qed.

(** Whatever rule matches, the service name is the lower-cased first group
    followed by ["s"]. *)
Lemma firstMatch_patterns (operationName serviceName : string) :
  firstMatch patterns operationName = Some serviceName →
  ∃ x : string, serviceName = Str.toLowerCase x +:+ "s".
Proof.
  unfold patterns; cbn [firstMatch].
  repeat (destruct (matchGroups _ operationName) as [m|];
          [intros [= <-]; by eexists|]).
  done.
Qed.

Lemma append_s_last (a t : string) :
  a +:+ "s" = t → head (rev (list_ascii_of_string t)) = Some "s"%char.
Proof.
  intros <-. rewrite CodegenProps.chars_append, rev_app_distr. reflexivity.
Qed.

Lemma extractServiceName_nonempty (operationName : string) :
  extractServiceName operationName ≠ "".
Proof.
  unfold extractServiceName.
  destruct (firstMatch patterns operationName) as [r|] eqn:Hr; [|done].
  destruct (firstMatch_patterns _ _ Hr) as [x ->].
  intros H%append_s_last. discriminate.
Qed.

(** X1.  A service name is never empty, is in lower case, is ["general"]
    or ends in ["s"], and is none of the property names an object inherits:
    the guard [if (serviceName)] of the plugins always passes and
    [groups[serviceName]] only ever finds what the plugin itself put
    there. *)
Theorem extractServiceName_shape (operationName : string) :
  extractServiceName operationName ≠ ""
  ∧ Str.toLowerCase (extractServiceName operationName)
    = extractServiceName operationName
  ∧ (extractServiceName operationName = "general"
     ∨ ∃ x : string, extractServiceName operationName = x +:+ "s")
  ∧ extractServiceName operationName ∉ PluginSpec.objectPrototypeKeys.
Proof.
  unfold extractServiceName.
  destruct (firstMatch patterns operationName) as [r|] eqn:Hr.
  - destruct (firstMatch_patterns _ _ Hr) as [x ->]. split_and!.
    + intros H%append_s_last. discriminate.
    + by rewrite toLowerCase_app, toLowerCase_idemp.
    + right. by eexists.
    + unfold PluginSpec.objectPrototypeKeys.
      rewrite !elem_of_cons, elem_of_nil.
      intros H; destruct_or!; try done;
        apply append_s_last in H; discriminate.
  - split_and!; [done | done | by left |].
    unfold PluginSpec.objectPrototypeKeys.
    rewrite !elem_of_cons, elem_of_nil.
    intros H; destruct_or!; done.
Qed.

(** *** When the rules match and when they do not *)

Lemma stripPrefix_drop_includes (sub s r : string) (n : nat) :
  Str.stripPrefix sub (Str.drop n s) = Some r → Str.includes sub s = true.
Proof.
  revert s. induction n as [|n IH]; intros s H.
  - destruct s; simpl in *; by rewrite H.
  - destruct s as [|c s]; simpl in H.
    + simpl. by rewrite H.
    + simpl. destruct (Str.stripPrefix sub (String c s)); [done|]. by apply IH.
Qed.

Lemma backtrack_lit_absent (sub s : string) (n : nat) :
  Str.includes sub s = false → backtrack (matchHere [Lit sub]) s n = None.
Proof.
  intros Hs. induction n as [|n IH]; [done|]. cbn [backtrack matchHere].
  destruct (Str.stripPrefix sub (Str.drop (S n) s)) as [r|] eqn:Hr; [|apply IH].
  apply stripPrefix_drop_includes in Hr. congruence.
Qed.

Lemma take_length (s : string) : Str.take (String.length s) s = s.
Proof. induction s as [|c s IH]; simpl; [done|]. by rewrite IH. Qed.

Lemma drop_length (s : string) : Str.drop (String.length s) s = "".
Proof. induction s as [|c s IH]; simpl; done. Qed.

(** A rule [/^<l>(\w+)Service/] fails on a text without ["Service"] after
    [l]. *)
Lemma rule_service_absent (l x : string) :
  Str.includes "Service" x = false →
  matchGroups (start [Lit l; WordPlus; Lit "Service"]) (l +:+ x) = None.
Proof.
  intros Hx. unfold matchGroups, exec, start; cbn [anchored items matchHere].
  rewrite NamingProps.stripPrefix_app.
  by rewrite (backtrack_lit_absent _ _ _ Hx).
Qed.

Lemma rule_any_service_absent (s : string) :
  Str.includes "Service" s = false →
  matchGroups (start [WordPlus; Lit "Service"]) s = None.
Proof.
  intros Hs. unfold matchGroups, exec, start; cbn [anchored items matchHere].
  by rewrite (backtrack_lit_absent _ _ _ Hs).
Qed.

Lemma rule_prefix_absent (l s : string) (p : list Item) :
  Str.stripPrefix l s = None → matchGroups (start (Lit l :: p)) s = None.
Proof.
  intros Hl. unfold matchGroups, exec, start; cbn [anchored items matchHere].
  by rewrite Hl.
Qed.

(** A rule [/^<l>(\w+)/] captures all of a non-empty run of word
    characters. *)
Lemma rule_word_whole (l x : string) :
  x ≠ "" → wordRun x = String.length x →
  matchGroups (start [Lit l; WordPlus]) (l +:+ x) = Some [x].
Proof.
  intros Hx Hw. unfold matchGroups, exec, start; cbn [anchored items matchHere].
  rewrite NamingProps.stripPrefix_app, Hw.
  destruct x as [|c x]; [done|]. cbn [String.length backtrack matchHere].
  change (S (String.length x)) with (String.length (String c x)).
  by rewrite take_length, drop_length.
Qed.

(** X2.  After a leading [Get], [Create], [Update] or [Delete], a
    remainder made of word characters and without ["Service"] is taken
    whole: the service name is the lower-cased remainder followed by
    ["s"]. *)
Theorem extractServiceName_whole_remainder (verb x : string) :
  verb ∈ verbs → x ≠ "" → wordRun x = String.length x →
  Str.includes "Service" x = false →
  extractServiceName (verb +:+ x) = Str.toLowerCase x +:+ "s".
Proof.
  intros Hverb Hx Hw Hs. unfold extractServiceName, patterns.
  assert (Str.includes "Service" (verb +:+ x) = false) as Hvs.
  { revert Hverb. unfold verbs. rewrite !elem_of_cons, elem_of_nil.
    intros H; destruct_or!; try done; subst verb;
      (etrans; [|exact Hs]); reflexivity. }
  revert Hverb. unfold verbs. rewrite !elem_of_cons, elem_of_nil.
  intros H; destruct_or!; try done; subst verb; cbn [firstMatch].
  - rewrite (rule_service_absent "Get" x Hs), (rule_any_service_absent _ Hvs).
    by rewrite (rule_word_whole "Get" x Hx Hw).
  - rewrite (rule_prefix_absent "Get") by done.
    rewrite (rule_any_service_absent _ Hvs).
    rewrite (rule_prefix_absent "Get") by done.
    by rewrite (rule_word_whole "Create" x Hx Hw).
  - rewrite (rule_prefix_absent "Get") by done.
    rewrite (rule_any_service_absent _ Hvs).
    rewrite (rule_prefix_absent "Get") by done.
    rewrite (rule_prefix_absent "Create") by done.
    by rewrite (rule_word_whole "Update" x Hx Hw).
  - rewrite (rule_prefix_absent "Get") by done.
    rewrite (rule_any_service_absent _ Hvs).
    rewrite (rule_prefix_absent "Get") by done.
    rewrite (rule_prefix_absent "Create") by done.
    rewrite (rule_prefix_absent "Update") by done.
    by rewrite (rule_word_whole "Delete" x Hx Hw).
Qed.

Lemma extractServiceName_whole_remainder_witness :
  extractServiceName ("Update" +:+ "BookingRequest")
  = Str.toLowerCase "BookingRequest" +:+ "s".
Proof.
  apply (extractServiceName_whole_remainder "Update" "BookingRequest");
    [do 2 apply list_elem_of_further; apply list_elem_of_here
    | discriminate | reflexivity | reflexivity].
Defined.

(** X3.  A name without ["Service"] that starts with none of [Get],
    [Create], [Update], [Delete] is put in ["general"]. *)
Theorem extractServiceName_general (operationName : string) :
  Str.includes "Service" operationName = false →
  (∀ verb : string, verb ∈ verbs → Str.stripPrefix verb operationName = None) →
  extractServiceName operationName = "general".
Proof.
  intros Hs Hverbs. unfold extractServiceName, patterns. cbn [firstMatch].
  assert (∀ verb, verb ∈ verbs → ∀ p,
            matchGroups (start (Lit verb :: p)) operationName = None) as Hmiss.
  { intros verb Hv p. apply rule_prefix_absent. by apply Hverbs. }
  rewrite (Hmiss "Get") by (apply list_elem_of_here).
  rewrite (rule_any_service_absent _ Hs).
  rewrite (Hmiss "Get") by (apply list_elem_of_here).
  rewrite (Hmiss "Create") by (apply list_elem_of_further, list_elem_of_here).
  rewrite (Hmiss "Update")
    by (do 2 apply list_elem_of_further; apply list_elem_of_here).
  by rewrite (Hmiss "Delete")
    by (do 3 apply list_elem_of_further; apply list_elem_of_here).
Qed.

Lemma extractServiceName_general_witness :
  extractServiceName "ListInvoices" = "general".
Proof.
  apply extractServiceName_general; [reflexivity|].
  intros verb. unfold verbs. rewrite !elem_of_cons, elem_of_nil.
  intros H; destruct_or!; try done; subst verb; reflexivity.
Defined.

Lemma firstRule_firstMatch (ps : list (Regex * (list string → string)))
    (operationName : string) :
  ReadmePlugin.firstRule ps operationName = firstMatch ps operationName.
Proof.
  induction ps as [|[pattern tr] ps IH]; [done|]. cbn [ReadmePlugin.firstRule firstMatch].
  destruct (matchGroups pattern operationName) as [m|]; [|apply IH].
  repeat case_decide; congruence.
Qed.

(** X4.  The README plugin's copies of [extractServiceName] and
    [extractShortName] give the same names as the cache-utils plugin's, so
    the README lists an operation under the group and method name its
    cache utilities have. *)
Theorem readme_names_agree (operationName : string) :
  ReadmePlugin.extractServiceName operationName = extractServiceName operationName
  ∧ ReadmePlugin.extractShortName operationName = extractShortName operationName.
Proof.
  split; [|reflexivity].
  unfold ReadmePlugin.extractServiceName, extractServiceName.
  by rewrite firstRule_firstMatch.
Qed.

Lemma includes_app (sub a b : string) :
  Str.includes sub (a +:+ sub +:+ b) = true.
Proof.
  induction a as [|c a IH].
  - change ("" +:+ sub +:+ b) with (sub +:+ b).
    destruct (sub +:+ b) eqn:E; simpl; rewrite <- E;
      by rewrite NamingProps.stripPrefix_app.
  - rewrite CodegenProps.append_cons. simpl.
    destruct (Str.stripPrefix sub (String c (a +:+ sub +:+ b))); [done|apply IH].
Qed.

(** X5.  On the NotificationService path the verb and
    [NotificationService] go as one unit, then one further leading [Get];
    nothing else is removed, so a leading [User] or [Booking] stays. *)
Theorem extractShortName_notification (verb x : string) :
  verb ∈ verbs →
  extractShortName (verb +:+ "NotificationService" +:+ x)
  = "get" +:+ default x (Str.stripPrefix "Get" x).
Proof.
  intros Hverb. unfold extractShortName, shortName.
  rewrite includes_app. f_equal.
  assert (replace (start [Alt verbs; Lit "NotificationService"]) ""
            (verb +:+ "NotificationService" +:+ x) = x) as ->.
  { revert Hverb. unfold verbs. rewrite !elem_of_cons, elem_of_nil.
    intros H; destruct_or!; try done; subst verb; reflexivity. }
  unfold replace, exec, start; cbn [anchored items matchHere].
  by destruct (Str.stripPrefix "Get" x).
Qed.

Lemma extractShortName_notification_witness :
  extractShortName ("Get" +:+ "NotificationService" +:+ "GetCategories")
  = "get" +:+ default "GetCategories" (Str.stripPrefix "Get" "GetCategories").
Proof.
  apply (extractShortName_notification "Get" "GetCategories").
  apply list_elem_of_here.
Defined.

End NamingMore.

(** ** The two paths of the short name *)

Module NamingPaths.
Import Regex Naming NamingSpec.

Lemma replace_start (p : list Item) (s : string) :
  replace (start p) "" s
  = match matchHere p s with
    | Some f => rest f
    | None => s
    end.
Proof.
  unfold replace, exec, start; cbn [anchored items].
  by destruct (matchHere p s).
Qed.

Lemma replace_start_lit (l s : string) :
  replace (start [Lit l]) "" s = stripLeading l s.
Proof.
  rewrite replace_start. unfold stripLeading. cbn [matchHere].
  by destruct (Str.stripPrefix l s).
Qed.

Lemma replace_start_alt (tokens : list string) (s : string) :
  replace (start [Alt tokens]) "" s = stripLeadingOneOf tokens s.
Proof.
  rewrite replace_start. cbn [matchHere].
  induction tokens as [|token tokens IH]; [done|].
  cbn [firstAlt stripLeadingOneOf matchHere].
  by destruct (Str.stripPrefix token s).
Qed.

Lemma stripPrefix_append (a b s : string) :
  Str.stripPrefix (a +:+ b) s
  = match Str.stripPrefix a s with
    | Some s' => Str.stripPrefix b s'
    | None => None
    end.
Proof.
  revert s. induction a as [|c a IH]; intros s; [done|].
  rewrite CodegenProps.append_cons.
  destruct s as [|d s]; cbn [Str.stripPrefix]; [done|].
  destruct (decide (c = d)); [apply IH|done].
Qed.

Lemma replace_start_unit (tokens : list string) (l s : string) :
  replace (start [Alt tokens; Lit l]) "" s
  = stripLeadingOneOf ((fun token => token +:+ l) <$> tokens) s.
Proof.
  rewrite replace_start. cbn [matchHere].
  induction tokens as [|token tokens IH]; [done|].
  cbn [firstAlt stripLeadingOneOf fmap list_fmap matchHere].
  rewrite stripPrefix_append.
  destruct (Str.stripPrefix token s) as [s'|]; [|apply IH].
  destruct (Str.stripPrefix l s'); [done|apply IH].
Qed.

Lemma removeFirst_unfold (token s : string) :
  removeFirst token s
  = match Str.stripPrefix token s with
    | Some r => r
    | None =>
        match s with
        | EmptyString => EmptyString
        | String c s' => String c (removeFirst token s')
        end
    end.
Proof. by destruct s. Qed.

(** The leftmost match of a literal starts where [removeFirst] cuts. *)
Lemma search_lit_removeFirst (token s : string) (idx : nat) :
  match search [Lit token] s idx with
  | Some (i, f) =>
      (idx ≤ i)%nat ∧ Str.take (i - idx) s +:+ rest f = removeFirst token s
  | None => removeFirst token s = s
  end.
Proof.
  revert idx. induction s as [|c s IH]; intros idx;
    rewrite removeFirst_unfold; cbn [search matchHere].
  - destruct (Str.stripPrefix token ""); [|done].
    split; [done|]. by rewrite Nat.sub_diag.
  - destruct (Str.stripPrefix token (String c s)).
    + split; [done|]. by rewrite Nat.sub_diag.
    + specialize (IH (S idx)).
      destruct (search [Lit token] s (S idx)) as [[i f]|].
      * destruct IH as [Hle IH]. split; [lia|].
        replace (i - idx)%nat with (S (i - S idx)) by lia.
        cbn [Str.take]. rewrite CodegenProps.append_cons. by rewrite IH.
      * by rewrite IH.
Qed.

Lemma replace_anywhere_lit (token s : string) :
  replace (anywhere [Lit token]) "" s = removeFirst token s.
Proof.
  unfold replace, exec, anywhere; cbn [anchored items].
  pose proof (search_lit_removeFirst token s 0) as H.
  destruct (search [Lit token] s 0) as [[i f]|]; [|done].
  destruct H as [_ H]. by rewrite Nat.sub_0_r in H.
Qed.

Lemma includes_cons (sub s : string) (c : ascii) :
  Str.includes sub (String c s) = false →
  Str.stripPrefix sub (String c s) = None ∧ Str.includes sub s = false.
Proof.
  cbn [Str.includes].
  by destruct (Str.stripPrefix sub (String c s)).
Qed.

Ltac straddle_step a E :=
  destruct a as [|? a];
  [ vm_compute in E; discriminate E
  | rewrite CodegenProps.append_cons in E; cbn [Str.stripPrefix] in E;
    match type of E with
    | (if decide (?x = ?y) then _ else _) = _ =>
        destruct (decide (x = y)) as [<-|]; [|discriminate E]
    end ].

(** [Service] has no proper ending that is also its beginning, so no
    occurrence of it straddles the end of a text without [Service] that
    [Service] follows. *)
Lemma service_no_straddle (a b : string) (c : ascii) :
  Str.includes "Service" (String c a) = false →
  Str.stripPrefix "Service" (String c a +:+ "Service" +:+ b) = None.
Proof.
  intros H.
  destruct (Str.stripPrefix "Service" (String c a +:+ "Service" +:+ b))
    as [r|] eqn:E; [exfalso|done].
  rewrite CodegenProps.append_cons in E; cbn [Str.stripPrefix] in E.
  destruct (decide ("S"%char = c)) as [<-|]; [|discriminate E].
  do 6 straddle_step a E.
  vm_compute in H. discriminate H.
Qed.

Lemma removeFirst_service (a b : string) :
  Str.includes "Service" a = false →
  removeFirst "Service" (a +:+ "Service" +:+ b) = a +:+ b.
Proof.
  induction a as [|c a IH]; intros H; rewrite removeFirst_unfold.
  - change ("" +:+ "Service" +:+ b) with ("Service" +:+ b).
    by rewrite NamingProps.stripPrefix_app.
  - rewrite (service_no_straddle _ _ _ H).
    rewrite !CodegenProps.append_cons. f_equal.
    apply IH. by apply includes_cons in H as [_ H].
Qed.

Lemma removeFirst_absent (token s : string) :
  Str.includes token s = false → removeFirst token s = s.
Proof.
  induction s as [|c s IH]; intros H; rewrite removeFirst_unfold.
  - cbn [Str.includes] in H. by destruct (Str.stripPrefix token "").
  - apply includes_cons in H as [-> H]. by rewrite IH.
Qed.

Lemma stripLeadingOneOf_verb (verb x : string) :
  verb ∈ operationVerbs → stripLeadingOneOf operationVerbs (verb +:+ x) = x.
Proof.
  unfold operationVerbs. rewrite !elem_of_cons, elem_of_nil.
  intros [->|[->|[->|[->|[]]]]]; reflexivity.
Qed.

Lemma stripLeadingOneOf_unit (verb x : string) :
  verb ∈ operationVerbs →
  stripLeadingOneOf ((fun v => v +:+ "NotificationService") <$> operationVerbs)
    (verb +:+ "NotificationService" +:+ x) = x.
Proof.
  unfold operationVerbs. rewrite !elem_of_cons, elem_of_nil.
  intros [->|[->|[->|[->|[]]]]]; reflexivity.
Qed.

Lemma extractShortName_inferShortName (operationName : string) :
  extractShortName operationName = inferShortName operationName.
Proof.
  unfold extractShortName, shortName, inferShortName. f_equal.
  destruct (Str.includes "NotificationService" operationName).
  - by rewrite replace_start_unit, replace_start_lit.
  - by rewrite replace_start_alt, replace_anywhere_lit, !replace_start_lit.
Qed.

(** C8.  [extractShortName] does what the claim says of it, on its two
    names and on every name.  It is [inferShortName], the function the
    claim's words describe.  With [NotificationService] after the verb,
    the verb and [NotificationService] go as one unit, then a further
    leading [Get].  On the general path the leading verb goes, whichever
    of the four it is, then the first [Service] wherever it stands, then
    a leading [User], then a leading [Booking]; ["get"] is put in front. *)
Theorem extractShortName_paths :
  extractShortName "GetNotificationServiceApps" = "getApps"
  ∧ extractShortName "GetUserProfile" = "getProfile"
  ∧ (∀ operationName : string,
        extractShortName operationName = inferShortName operationName)
  ∧ (∀ verb x : string,
        verb ∈ ["Get"; "Create"; "Update"; "Delete"] →
        extractShortName (verb +:+ "NotificationService" +:+ x)
        = "get" +:+ stripLeading "Get" x)
  ∧ (∀ verb x : string,
        verb ∈ ["Get"; "Create"; "Update"; "Delete"] →
        Str.includes "NotificationService" (verb +:+ x) = false →
        Str.includes "Service" x = false →
        extractShortName (verb +:+ x)
        = "get" +:+ stripLeading "Booking" (stripLeading "User" x))
  ∧ (∀ verb a b : string,
        verb ∈ ["Get"; "Create"; "Update"; "Delete"] →
        Str.includes "NotificationService" (verb +:+ a +:+ "Service" +:+ b)
        = false →
        Str.includes "Service" a = false →
        extractShortName (verb +:+ a +:+ "Service" +:+ b)
        = "get" +:+ stripLeading "Booking" (stripLeading "User" (a +:+ b))).
Proof.
  split; [reflexivity|]. split; [reflexivity|].
  split; [apply extractShortName_inferShortName|].
  split; [|split].
  - intros verb x Hverb. rewrite extractShortName_inferShortName.
    unfold inferShortName. rewrite NamingMore.includes_app.
    by rewrite (stripLeadingOneOf_unit _ _ Hverb).
  - intros verb x Hverb Hnotif Hservice.
    rewrite extractShortName_inferShortName.
    unfold inferShortName. rewrite Hnotif.
    rewrite (stripLeadingOneOf_verb _ _ Hverb).
    by rewrite (removeFirst_absent _ _ Hservice).
  - intros verb a b Hverb Hnotif Hservice.
    rewrite extractShortName_inferShortName.
    unfold inferShortName. rewrite Hnotif.
    rewrite (stripLeadingOneOf_verb _ _ Hverb).
    by rewrite (removeFirst_service _ _ Hservice).
Qed.

Lemma extractShortName_paths_witness :
  extractShortName ("Create" +:+ "Booking" +:+ "Service" +:+ "UserSlot")
  = "get" +:+ stripLeading "Booking"
                (stripLeading "User" ("Booking" +:+ "UserSlot")).
Proof.
  apply (proj2 (proj2 (proj2 (proj2 (proj2 extractShortName_paths))))
           "Create" "Booking" "UserSlot");
    [apply list_elem_of_further, list_elem_of_here | reflexivity..].
Defined.

End NamingPaths.

(** ** The document pass of the plugins *)

Module PluginProps.
Import Documents PluginSpec.

Lemma named_snoc (nodes : list OperationDefinition) (node : OperationDefinition) :
  named (nodes ++ [node]) = (named nodes ++ option_list (name node))%list.
Proof. unfold named. rewrite omap_app. simpl. by destruct (name node). Qed.

Lemma namedOf_snoc (ty : OperationType) (nodes : list OperationDefinition)
    (node : OperationDefinition) :
  namedOf ty (nodes ++ [node])
  = (namedOf ty nodes
     ++ (if decide (operation node = ty) then option_list (name node) else []))%list.
Proof.
  unfold namedOf. rewrite omap_app. simpl.
  destruct (decide (operation node = ty)); [|done]. by destruct (name node).
Qed.

Lemma inService_app (g : string) (l k : list string) :
  inService g (l ++ k) = (inService g l ++ inService g k)%list.
Proof. apply filter_app. Qed.

Lemma inService_singleton (g operationName : string) :
  inService g [operationName]
  = if decide (Naming.extractServiceName operationName = g)
    then [operationName] else [].
Proof. unfold inService. rewrite filter_cons, filter_nil. by case_decide. Qed.

Lemma elem_of_inService (g operationName : string) (l : list string) :
  operationName ∈ inService g l
  ↔ operationName ∈ l ∧ Naming.extractServiceName operationName = g.
Proof. unfold inService. rewrite list_elem_of_filter. tauto. Qed.

Lemma whenNonEmpty_default (l : list string) : default [] (whenNonEmpty l) = l.
Proof. by destruct l. Qed.

Lemma whenNonEmpty_snoc (l : list string) (x : string) :
  whenNonEmpty (l ++ [x]) = Some (l ++ [x])%list.
Proof. by destruct l. Qed.

(** *** The cache-utils plugin *)

Lemma collect_snoc (nodes : list OperationDefinition) (node : OperationDefinition) :
  CacheUtilsPlugin.collect (nodes ++ [node])
  = CacheUtilsPlugin.enter (CacheUtilsPlugin.collect nodes) node.
Proof. unfold CacheUtilsPlugin.collect. by rewrite foldl_app. Qed.

Lemma collect_operations (nodes : list OperationDefinition) :
  CacheUtilsPlugin.operations (CacheUtilsPlugin.collect nodes) = named nodes.
Proof.
  induction nodes as [|node nodes IH] using rev_ind; [done|].
  rewrite collect_snoc, named_snoc. unfold CacheUtilsPlugin.enter.
  destruct (name node); simpl; [by rewrite IH|].
  by rewrite IH, app_nil_r.
Qed.

Lemma collect_groups (nodes : list OperationDefinition) (g : string) :
  CacheUtilsPlugin.groups (CacheUtilsPlugin.collect nodes) !! g
  = whenNonEmpty (inService g (named nodes)).
Proof.
  induction nodes as [|node nodes IH] using rev_ind; [done|].
  rewrite collect_snoc, named_snoc, inService_app. unfold CacheUtilsPlugin.enter.
  destruct (name node) as [operationName|]; simpl;
    [|by rewrite IH, app_nil_r].
  rewrite bool_decide_eq_true_2 by apply NamingMore.extractServiceName_nonempty.
  unfold CacheUtilsPlugin.pushTo. rewrite inService_singleton.
  destruct (decide (Naming.extractServiceName operationName = g)) as [<-|Hne].
  - by rewrite lookup_insert_eq, IH, whenNonEmpty_default, whenNonEmpty_snoc.
  - by rewrite lookup_insert_ne, IH, app_nil_r.
Qed.

(** X6.  The cache-utils plugin lists the named operations in document
    order and files each under the service [extractServiceName] gives it:
    a group holds exactly its service's operations, in order, no group is
    empty, every named operation is in one group and no other, and
    anonymous operations are left out.  There are groups exactly when there
    are operations. *)
Theorem cacheUtils_plugin_groups (nodes : list OperationDefinition)
    (config : option (option string)) :
  CacheUtilsPlugin.ctxOperations (CacheUtilsPlugin.plugin nodes config)
  = named nodes
  ∧ (∀ g : string,
        CacheUtilsPlugin.ctxGroups (CacheUtilsPlugin.plugin nodes config) !! g
        = whenNonEmpty (inService g (named nodes)))
  ∧ (∀ (g : string) (l : list string) (operationName : string),
        CacheUtilsPlugin.ctxGroups (CacheUtilsPlugin.plugin nodes config) !! g
        = Some l →
        l ≠ []
        ∧ (operationName ∈ l
           ↔ operationName ∈ named nodes
             ∧ g = Naming.extractServiceName operationName))
  ∧ (∀ operationName : string,
        operationName ∈ named nodes →
        ∃ l : list string,
          CacheUtilsPlugin.ctxGroups (CacheUtilsPlugin.plugin nodes config)
            !! Naming.extractServiceName operationName = Some l
          ∧ operationName ∈ l)
  ∧ CacheUtilsPlugin.hasGroups (CacheUtilsPlugin.plugin nodes config)
    = CacheUtilsPlugin.hasOperations (CacheUtilsPlugin.plugin nodes config).
Proof.
  unfold CacheUtilsPlugin.plugin; simpl. split_and!.
  - apply collect_operations.
  - apply collect_groups.
  - intros g l operationName. rewrite collect_groups.
    destruct (inService g (named nodes)) as [|x k] eqn:E; [done|].
    intros [= <-]. split; [done|]. rewrite <- E, elem_of_inService.
    split; intros [? ?]; by split.
  - intros operationName Hin. rewrite collect_groups.
    assert (operationName ∈ inService (Naming.extractServiceName operationName)
                              (named nodes)) as Hs
      by by apply elem_of_inService.
    destruct (inService _ (named nodes)) as [|x k] eqn:E;
      [by apply elem_of_nil in Hs|].
    by eexists.
  - rewrite collect_operations.
    destruct (named nodes) as [|operationName k] eqn:E.
    + assert (CacheUtilsPlugin.groups (CacheUtilsPlugin.collect nodes) = ∅) as ->; [|done].
      apply map_eq. intros g. by rewrite collect_groups, E, lookup_empty.
    + simpl. apply Nat.ltb_lt.
      destruct (size (CacheUtilsPlugin.groups (CacheUtilsPlugin.collect nodes)))
        eqn:Hsize; [|lia].
      apply map_size_empty_iff in Hsize.
      pose proof (collect_groups nodes (Naming.extractServiceName operationName)) as Hg.
      rewrite Hsize, lookup_empty, E in Hg. unfold inService in Hg.
      rewrite filter_cons, decide_True in Hg by done. done.
Qed.

Lemma cacheUtils_plugin_groups_witness :
  ∃ l : list string,
    CacheUtilsPlugin.ctxGroups (CacheUtilsPlugin.plugin sampleNodes None)
      !! Naming.extractServiceName "CreateUserProfile" = Some l
    ∧ "CreateUserProfile" ∈ l.
Proof.
  apply (cacheUtils_plugin_groups sampleNodes None).
  do 1 apply list_elem_of_further. apply list_elem_of_here.
Defined.

(** *** The README plugin *)

Lemma readme_service (operationName : string) :
  ReadmePlugin.extractServiceName operationName
  = Naming.extractServiceName operationName.
Proof.
  unfold ReadmePlugin.extractServiceName, Naming.extractServiceName.
  by rewrite NamingMore.firstRule_firstMatch.
Qed.

Lemma readme_collect_snoc (nodes : list OperationDefinition)
    (node : OperationDefinition) :
  ReadmePlugin.collect (nodes ++ [node])
  = ReadmePlugin.enter (ReadmePlugin.collect nodes) node.
Proof. unfold ReadmePlugin.collect. by rewrite foldl_app. Qed.

Lemma readme_collect_lists (nodes : list OperationDefinition) :
  ReadmePlugin.operations (ReadmePlugin.collect nodes) = namedOf OpQuery nodes
  ∧ ReadmePlugin.mutations (ReadmePlugin.collect nodes) = namedOf OpMutation nodes
  ∧ ReadmePlugin.subscriptions (ReadmePlugin.collect nodes)
    = namedOf OpSubscription nodes.
Proof.
  induction nodes as [|node nodes (IH1 & IH2 & IH3)] using rev_ind; [done|].
  rewrite readme_collect_snoc, !namedOf_snoc. unfold ReadmePlugin.enter.
  destruct node as [[operationName|] []]; simpl;
    rewrite ?app_nil_r, ?IH1, ?IH2, ?IH3; repeat split.
Qed.

Lemma namedOf_total (nodes : list OperationDefinition) :
  length (namedOf OpQuery nodes) + length (namedOf OpMutation nodes)
  + length (namedOf OpSubscription nodes)
  = length (named nodes).
Proof.
  induction nodes as [|[[operationName|] []] nodes IH]; simpl in *; lia.
Qed.

Lemma inService_namedOf_nil (g : string) (ty : OperationType)
    (nodes : list OperationDefinition) :
  inService g (named nodes) = [] → inService g (namedOf ty nodes) = [].
Proof.
  induction nodes as [|node nodes IH] using rev_ind; [done|].
  rewrite named_snoc, namedOf_snoc, !inService_app.
  intros [H1 H2]%app_eq_nil. rewrite (IH H1). simpl.
  by destruct (decide (operation node = ty)).
Qed.

Lemma inService_nil (g : string) : inService g [] = [].
Proof. reflexivity. Qed.

Lemma readme_collect_groups (nodes : list OperationDefinition) (g : string) :
  ReadmePlugin.groups (ReadmePlugin.collect nodes) !! g = readmeGroup g nodes.
Proof.
  induction nodes as [|node nodes IH] using rev_ind; [done|].
  rewrite readme_collect_snoc. unfold ReadmePlugin.enter, readmeGroup.
  rewrite named_snoc, !namedOf_snoc, !inService_app.
  destruct node as [[operationName|] ty];
    cbn [name operation ReadmePlugin.groups];
    destruct ty;
    repeat first [rewrite decide_True by done | rewrite decide_False by done];
    simpl (option_list _); rewrite ?inService_nil, ?app_nil_r;
    try (by rewrite IH).
  all: rewrite readme_service.
  all: rewrite bool_decide_eq_true_2 by apply NamingMore.extractServiceName_nonempty.
  all: rewrite !inService_singleton.
  all: destruct (decide (Naming.extractServiceName operationName = g)) as [<-|Hne];
    [ rewrite lookup_insert_eq, IH, ?decide_True by done; unfold readmeGroup;
      destruct (inService _ (named nodes)) as [|x k] eqn:E;
      [ rewrite !(inService_namedOf_nil _ _ _ E); reflexivity | reflexivity ]
    | rewrite lookup_insert_ne, IH, ?decide_False by done; unfold readmeGroup;
      rewrite !app_nil_r; reflexivity ].
Qed.

(** X7.  The README plugin sorts the named operations by type into
    [operations] (the queries), [mutations] and [subscriptions], each in
    document order; [totalOperations] counts every named operation once;
    and the group of a service, present once the service has an operation,
    holds the service's queries, mutations and subscriptions. *)
Theorem readme_plugin_collect (nodes : list OperationDefinition) :
  ReadmePlugin.operations (ReadmePlugin.collect nodes) = namedOf OpQuery nodes
  ∧ ReadmePlugin.mutations (ReadmePlugin.collect nodes) = namedOf OpMutation nodes
  ∧ ReadmePlugin.subscriptions (ReadmePlugin.collect nodes)
    = namedOf OpSubscription nodes
  ∧ ReadmePlugin.totalOperations (ReadmePlugin.collect nodes)
    = length (named nodes)
  ∧ ∀ g : string,
      ReadmePlugin.groups (ReadmePlugin.collect nodes) !! g = readmeGroup g nodes.
Proof.
  destruct (readme_collect_lists nodes) as (H1 & H2 & H3).
  split_and!; try done.
  - unfold ReadmePlugin.totalOperations. rewrite H1, H2, H3. apply namedOf_total.
  - apply readme_collect_groups.
Qed.

End PluginProps.

(** ** More on the cache utilities *)

Module UtilsMore.
Import Js Client Utils Cache CacheSpec UtilsSpec.

Lemma isUndefined_true (v : Any) : isUndefined v = true → v = undefined.
Proof. by destruct v as [[]|]. Qed.

Lemma queryKeyOf_inj (op op' : string) (v v' : Any) :
  queryKeyOf op v = queryKeyOf op' v' → op = op' ∧ v = v'.
Proof.
  unfold queryKeyOf, str.
  destruct (isUndefined v) eqn:Hv, (isUndefined v') eqn:Hv'; intros [=]; subst.
  - by rewrite (isUndefined_true _ Hv), (isUndefined_true _ Hv').
  - done.
Qed.

(** X8.  The key function is injective: two calls give the same key only
    for the same operation name and the same variables, so different
    operations, or one operation under different variables, never share a
    cache slot. *)
Theorem queryKeys_distinct (operations : list string) (op op' : string)
    (key key' : Any → QueryKey) (v v' : Any) :
  createQueryKeys operations !! op = Some key →
  createQueryKeys operations !! op' = Some key' →
  key v = key' v' → op = op' ∧ v = v'.
Proof.
  intros Hk Hk' Heq.
  destruct (decide (op ∈ operations)) as [Hin|Hout];
    [|by rewrite (KeyProps.createQueryKeys_lookup_None _ _ Hout) in Hk].
  destruct (decide (op' ∈ operations)) as [Hin'|Hout'];
    [|by rewrite (KeyProps.createQueryKeys_lookup_None _ _ Hout') in Hk'].
  rewrite (KeyProps.createQueryKeys_lookup _ _ Hin) in Hk.
  rewrite (KeyProps.createQueryKeys_lookup _ _ Hin') in Hk'.
  simplify_eq. by apply queryKeyOf_inj.
Qed.

Lemma queryKeys_distinct_witness :
  "GetUser" = "GetUser" ∧ idIs 1 = idIs 1.
Proof.
  apply (queryKeys_distinct ["GetUser"] "GetUser" "GetUser"
           (queryKeyOf "GetUser") (queryKeyOf "GetUser") (idIs 1) (idIs 1));
    reflexivity.
Defined.

Section Covered.
Variable operations : list string.
Variable opGroups : gmap string (list string).

Let config : UtilsConfig :=
  {| queryKeys := createQueryKeys operations; groups := opGroups |}.

Lemma keyFor_covered (op : string) (v : Any) :
  op ∈ operations → keyFor config op v = Ok (queryKeyOf op v).
Proof.
  intros Hop. unfold keyFor; simpl.
  by rewrite (KeyProps.createQueryKeys_lookup _ _ Hop).
Qed.

(** X9.  Writing through one handle leaves every other slot alone: after
    [setData] for [(op, v)], [getData] for a different operation, or for
    the same operation under different variables, reads what it read
    before. *)
Theorem setData_frame (op op' : string) (v v' : Any) (u : DataOrUpdater)
    (c : Store) :
  op ∈ operations → op' ∈ operations → (op, v) ≠ (op', v') →
  ∃ c' : Store,
    setData (operationUtils config Cache.client op) u v c = Ok c'
    ∧ getData (operationUtils config Cache.client op') v' c'
      = getData (operationUtils config Cache.client op') v' c.
Proof.
  intros Hop Hop' Hne. eexists. simpl.
  rewrite !keyFor_covered by done. split; [reflexivity|]. f_equal.
  apply UtilsProps.read_write_ne. intros [-> ->]%queryKeyOf_inj. done.
Qed.

(** X10.  An updater passed to [setData] is given what [getData] read just
    before ([undefined] if the slot was empty), and [getData] then reads
    its result. *)
Theorem setData_updater (op : string) (v : Any) (f : Any → Any) (c : Store) :
  op ∈ operations →
  ∃ (old : Any) (c' : Store),
    getData (operationUtils config Cache.client op) v c = Ok old
    ∧ setData (operationUtils config Cache.client op) (Updater f) v c = Ok c'
    ∧ getData (operationUtils config Cache.client op) v c' = Ok (f old)
    ∧ (c = [] → old = undefined).
Proof.
  intros Hop. eexists _, _. simpl. rewrite !keyFor_covered by done.
  split_and!; try reflexivity.
  - by rewrite UtilsProps.read_write.
  - by intros ->.
Qed.

End Covered.

Lemma setData_frame_witness :
  ∃ c' : Store,
    setData (operationUtils usersConfig Cache.client "GetUser")
      (Data (idIs 7)) (idIs 1) [] = Ok c'
    ∧ getData (operationUtils usersConfig Cache.client "GetUser") (idIs 2) c'
      = getData (operationUtils usersConfig Cache.client "GetUser") (idIs 2) [].
Proof.
  apply (setData_frame ["GetUser"] {[ "users" := ["GetUser"] ]}
           "GetUser" "GetUser" (idIs 1) (idIs 2) (Data (idIs 7)) []).
  - apply list_elem_of_here.
  - apply list_elem_of_here.
  - intros [=].
Defined.

Lemma setData_updater_witness :
  ∃ (old : Any) (c' : Store),
    getData (operationUtils usersConfig Cache.client "GetUser") undefined [] = Ok old
    ∧ setData (operationUtils usersConfig Cache.client "GetUser")
        (Updater (fun _ => idIs 3)) undefined [] = Ok c'
    ∧ getData (operationUtils usersConfig Cache.client "GetUser") undefined c'
      = Ok (idIs 3)
    ∧ ([] = @nil Query → old = undefined).
Proof.
  apply (setData_updater ["GetUser"] {[ "users" := ["GetUser"] ]}
           "GetUser" undefined (fun _ => idIs 3) []).
  apply list_elem_of_here.
Defined.

(** *** The shape of the utils object *)

Section Shape.
Context {C : Type}.
Variable config : UtilsConfig.
Variable queryClient : QueryClient C.

(** X11.  A handle built for an operation that [createQueryKeys] was not
    given, and whose name is none of those [Object.prototype] defines,
    cannot read or write: [getData] and [setData] raise a [TypeError]
    before the cache client is called, whatever the arguments and the
    cache, while [invalidate] still reaches the client.  The key factory
    is one built without the name [__proto__], so that its prototype is
    [Object.prototype]. *)
Theorem missing_key_function (operations : list string)
    (opGroups : gmap string (list string)) (op : string) :
  "__proto__" ∉ operations →
  op ∉ operations →
  OwnSpec.plainName op →
  (∀ (v : Any) (c : C),
      getData (operationUtils
                 {| queryKeys := createQueryKeys operations; groups := opGroups |}
                 queryClient op) v c = TypeError)
  ∧ (∀ (d : DataOrUpdater) (v : Any) (c : C),
        setData (operationUtils
                   {| queryKeys := createQueryKeys operations; groups := opGroups |}
                   queryClient op) d v c = TypeError)
  ∧ (∀ (filters : option (gmap string Value)) (c : C),
        invalidate (operationUtils
                      {| queryKeys := createQueryKeys operations;
                         groups := opGroups |}
                      queryClient op) filters c
        = invalidateQueries queryClient (filtersFor op filters) c).
Proof.
  intros _ Hk%KeyProps.createQueryKeys_lookup_None _.
  split_and!; intros; simpl; unfold keyFor; simpl; by rewrite ?Hk.
Qed.

Lemma lastNamed_snoc (k x : string) (l : list string) :
  lastNamed k (l ++ [x])
  = if decide (Str.lowerFirst x = k) then Some x else lastNamed k l.
Proof.
  unfold lastNamed. rewrite filter_app, filter_cons, filter_nil.
  case_decide; [by rewrite last_snoc|by rewrite app_nil_r].
Qed.

Lemma groupUtils_lastNamed (operationNames : list string) (k : string) :
  groupUtils config queryClient operationNames !! k
  = operationUtils config queryClient <$> lastNamed k operationNames.
Proof.
  induction operationNames as [|x l IH] using rev_ind; [done|].
  rewrite UtilsProps.groupUtils_snoc, lastNamed_snoc.
  case_decide as Hk.
  - subst k. by rewrite lookup_insert_eq.
  - by rewrite lookup_insert_ne.
Qed.

Lemma groupUtils_dom (operationNames : list string) :
  dom (groupUtils config queryClient operationNames)
  =@{gset string} list_to_set (Str.lowerFirst <$> operationNames).
Proof.
  induction operationNames as [|x l IH] using rev_ind; [apply dom_empty_L|].
  rewrite UtilsProps.groupUtils_snoc, dom_insert_L, IH, fmap_app. simpl.
  rewrite list_to_set_snoc_L. apply (comm_L (∪)).
Qed.

(** X12.  With no group and no operation named [__proto__]: the utils
    object has one own entry per group of the config, empty groups
    included; a group's own keys are the camel-cased operation names; and
    when several names of a group share a key, the handle under it is the
    one built for the last of them (keys other than the names
    [Object.prototype] defines, under which a read finds an inherited
    member where the group has none of its own). *)
Theorem createUtils_shape :
  groups config !! "__proto__" = None →
  dom (createUtilsFactory config queryClient) =@{gset string} dom (groups config)
  ∧ ∀ (g : string) (operationNames : list string),
      groups config !! g = Some operationNames →
      "__proto__" ∉ operationNames →
      ∃ grp : gmap string (OperationUtils C),
        createUtilsFactory config queryClient !! g = Some grp
        ∧ dom grp =@{gset string} list_to_set (Str.lowerFirst <$> operationNames)
        ∧ (operationNames = [] → grp = ∅)
        ∧ ∀ k : string,
            OwnSpec.plainName k →
            grp !! k
            = operationUtils config queryClient <$> lastNamed k operationNames.
Proof.
  intros _.
  unfold createUtilsFactory, createUtils. split; [apply dom_fmap_L|].
  intros g names Hg _. exists (groupUtils config queryClient names).
  rewrite lookup_fmap, Hg. split_and!; [done|apply groupUtils_dom| |].
  - by intros ->.
  - intros k _. apply groupUtils_lastNamed.
Qed.

End Shape.

Lemma missing_key_function_witness :
  getData (operationUtils partialConfig Cache.client "GetOrder") (idIs 1) []
  = TypeError.
Proof.
  apply (missing_key_function Cache.client ["GetUser"]
           {[ "users" := ["GetUser"]; "orders" := ["GetOrder"] ]} "GetOrder").
  - intros H%list_elem_of_In. simpl in H. intuition discriminate.
  - intros H%list_elem_of_In. simpl in H. intuition discriminate.
  - intros H%list_elem_of_In. simpl in H. intuition discriminate.
Defined.

Lemma createUtils_shape_witness :
  ∃ grp : gmap string (OperationUtils Store),
    createUtilsFactory partialConfig Cache.client !! "orders" = Some grp
    ∧ dom grp =@{gset string} list_to_set (Str.lowerFirst <$> ["GetOrder"])
    ∧ (["GetOrder"] = [] → grp = ∅)
    ∧ ∀ k : string,
        OwnSpec.plainName k →
        grp !! k
        = operationUtils partialConfig Cache.client <$> lastNamed k ["GetOrder"].
Proof.
  apply (proj2 (createUtils_shape partialConfig Cache.client eq_refl)
           "orders" ["GetOrder"]).
  - reflexivity.
  - intros H%list_elem_of_In. simpl in H. intuition discriminate.
Defined.

(** *** Names in Pascal case do not collide *)

Lemma isUpper_bounds (c : ascii) :
  Str.isUpper c = true → (65 ≤ nat_of_ascii c ≤ 90)%nat.
Proof.
  unfold Str.isUpper. rewrite andb_true_iff, !Nat.leb_le. lia.
Qed.

Lemma lowerChar_inj_upper (c c' : ascii) :
  Str.isUpper c = true → Str.isUpper c' = true →
  Str.lowerChar c = Str.lowerChar c' → c = c'.
Proof.
  intros Hc Hc'. unfold Str.lowerChar. rewrite Hc, Hc'.
  apply isUpper_bounds in Hc, Hc'. intros H.
  apply (f_equal nat_of_ascii) in H.
  rewrite !nat_ascii_embedding in H by lia.
  rewrite <- (ascii_nat_embedding c), <- (ascii_nat_embedding c').
  f_equal. lia.
Qed.

Lemma lowerFirst_inj_upper (s t : string) :
  startsUpper s = true → startsUpper t = true →
  Str.lowerFirst s = Str.lowerFirst t → s = t.
Proof.
  destruct s as [|c s], t as [|c' t]; simpl; try done.
  intros Hc Hc' [= H ->]. f_equal. by apply lowerChar_inj_upper.
Qed.

Lemma lastNamed_unique (op : string) (l : list string) :
  NoDup l → Forall (fun s => startsUpper s = true) l → op ∈ l →
  lastNamed (Str.lowerFirst op) l = Some op.
Proof.
  induction l as [|x l IH] using rev_ind; [by intros _ _ ?%elem_of_nil|].
  rewrite NoDup_app, Forall_app, Forall_singleton, elem_of_app,
    list_elem_of_singleton, lastNamed_snoc.
  intros (Hl & Hx & _) [Hall Hux] Hop. case_decide as Hk.
  - f_equal. destruct Hop as [Hop| ->]; [|done].
    apply lowerFirst_inj_upper in Hk; [done|done|].
    by eapply Forall_forall in Hall.
  - destruct Hop as [Hop| ->]; [by apply IH|done].
Qed.

(** X13.  When the operation names of a group are distinct and start with
    an upper-case letter, no handle overwrites another: the group has as
    many handles as names, and each name finds its own handle under its
    camel-cased key. *)
Theorem createUtils_no_collision {C : Type} (config : UtilsConfig)
    (queryClient : QueryClient C) (g : string) (operationNames : list string) :
  groups config !! g = Some operationNames →
  NoDup operationNames →
  Forall (fun s => startsUpper s = true) operationNames →
  ∃ grp : gmap string (OperationUtils C),
    createUtilsFactory config queryClient !! g = Some grp
    ∧ size grp = length operationNames
    ∧ ∀ op : string, op ∈ operationNames →
        grp !! Str.lowerFirst op = Some (operationUtils config queryClient op).
Proof.
  intros Hg Hnd Hup. exists (groupUtils config queryClient operationNames).
  unfold createUtilsFactory, createUtils. rewrite lookup_fmap, Hg.
  split_and!; [done| |].
  - rewrite <- size_dom, groupUtils_dom, size_list_to_set, length_fmap; [done|].
    apply NoDup_fmap_2_strong; [|done].
    intros s t Hs Ht. apply lowerFirst_inj_upper; by eapply Forall_forall in Hup.
  - intros op Hop. by rewrite groupUtils_lastNamed, lastNamed_unique.
Qed.

Lemma createUtils_no_collision_witness :
  ∃ grp : gmap string (OperationUtils Store),
    createUtilsFactory usersConfig Cache.client !! "users" = Some grp
    ∧ size grp = length ["GetUser"]
    ∧ ∀ op : string, op ∈ ["GetUser"] →
        grp !! Str.lowerFirst op = Some (operationUtils usersConfig Cache.client op).
Proof.
  apply (createUtils_no_collision usersConfig Cache.client "users" ["GetUser"]).
  - reflexivity.
  - apply NoDup_singleton.
  - by apply Forall_singleton.
Defined.

(** *** Refetching and cancelling *)

Lemma actsExactly_onMatching (act : Query → Query) (P : Query → Prop)
    (f : QueryFilters) (c : Store) :
  (∀ q : Query, q ∈ c → matchQuery f q = true ↔ P q) →
  actsExactly act P c (onMatching act f c).
Proof.
  intros HP. unfold actsExactly, onMatching.
  split; [by rewrite length_fmap|].
  intros i q Hi. rewrite list_lookup_fmap, Hi; simpl.
  assert (q ∈ c) as Hin by (apply list_elem_of_lookup; eauto).
  destruct (matchQuery f q) eqn:Hm; split; intros HPq; try done.
  - destruct HPq. by apply HP.
  - apply HP in HPq; [congruence|done].
Qed.

Lemma matchQuery_selects (op : string) (filters : option (gmap string Value))
    (q : Query) :
  variablesTyped q →
  matchQuery (filtersFor op filters) q = true ↔ selects op filters q.
Proof.
  intros Hq. unfold selects, forOperation.
  destruct filters as [fs|].
  - destruct (decide (fs = ∅)) as [->|Hne].
    + rewrite UtilsProps.filtersFor_unfiltered by (by right).
      unfold matchQuery; simpl.
      rewrite andb_true_r, UtilsProps.startsWith_operation.
      split; [|by intros [? _]]. intros ?. split; [done|].
      intros k v Hk. by rewrite lookup_empty in Hk.
    + rewrite UtilsProps.filtersFor_filtered by done.
      unfold matchQuery; simpl.
      by rewrite andb_true_iff, UtilsProps.startsWith_operation,
        UtilsProps.filterPredicate_spec.
  - rewrite UtilsProps.filtersFor_unfiltered by (by left).
    unfold matchQuery; simpl.
    rewrite andb_true_r, UtilsProps.startsWith_operation. tauto.
Qed.

Lemma read_onMatching (act : Query → Query) (f : QueryFilters) (k : QueryKey)
    (c : Store) :
  (∀ q : Query, queryKey (act q) = queryKey q ∧ data (act q) = data q) →
  read k (onMatching act f c) = read k c.
Proof.
  intros Hact. induction c as [|q c IH]; [done|]. unfold onMatching in *.
  rewrite fmap_cons. cbn [read]. rewrite IH.
  destruct (matchQuery f q); [|done].
  destruct (Hact q) as [-> ->]. done.
Qed.

Lemma refetchesExactly_onMatching (P : Query → Prop) (f : QueryFilters)
    (c : Store) :
  (∀ q : Query, q ∈ c → matchQuery f q = true ↔ P q) →
  OwnSpec.refetchesExactly P c (onMatching startFetch f c).
Proof.
  intros HP. destruct (actsExactly_onMatching startFetch P f c HP) as [Hlen Hact].
  split; [done|]. intros i q Hi. destruct (Hact i q Hi) as [Hyes Hno].
  split; [|done]. intros HPq. exists (startFetch q). by split; [apply Hyes|].
Qed.

(** X14.  [refetch] and [cancel] take their filters as [invalidate] does
    (filter keys other than the names [Object.prototype] defines, entries
    with variables absent, [undefined] or a plain object): [refetch]
    triggers a new execution for exactly the entries of the operation
    that match every filter pair (all its entries without filters) and
    leaves the others as they are, [cancel] stops the fetch of exactly
    those, and neither [cancel] nor [invalidate] changes what any key
    reads.  Nothing is said of the data after a refetch. *)
Theorem refetch_cancel_filters (config : UtilsConfig) (g name : string)
    (grp : gmap string (OperationUtils Store)) (h : OperationUtils Store) :
  createUtilsFactory config Cache.client !! g = Some grp →
  grp !! name = Some h →
  ∃ op : string,
    name = Str.lowerFirst op
    ∧ (∀ (filters : option (gmap string Value)) (c : Store),
          OwnSpec.plainFilters filters →
          Forall variablesTyped c →
          OwnSpec.refetchesExactly (selects op filters) c (refetch h filters c)
          ∧ actsExactly stopFetch (selects op filters) c (cancel h filters c))
    ∧ (∀ (filters : option (gmap string Value)) (c : Store) (k : QueryKey),
          getQueryData Cache.client k (cancel h filters c)
          = getQueryData Cache.client k c
          ∧ getQueryData Cache.client k (invalidate h filters c)
            = getQueryData Cache.client k c).
Proof.
  intros Hg Hh.
  destruct (UtilsProps.createUtils_handle _ _ _ _ _ _ Hg Hh)
    as (names & op & _ & _ & -> & ->).
  exists op. split; [done|]. split.
  - intros filters c _ Hc.
    split; [apply refetchesExactly_onMatching|apply actsExactly_onMatching];
      intros q Hq; apply matchQuery_selects; by eapply Forall_forall in Hc.
  - intros filters c k. split_and!; by apply read_onMatching.
Qed.

Lemma refetch_cancel_filters_witness :
  ∃ op : string,
    "getUser" = Str.lowerFirst op
    ∧ OwnSpec.refetchesExactly (selects op (Some (OwnSpec.idFilter 1)))
        [entry [str "GetUser"; idIs 1]; entry [str "GetUser"; idIs 2]]
        (refetch (operationUtils usersConfig Cache.client "GetUser")
           (Some (OwnSpec.idFilter 1))
           [entry [str "GetUser"; idIs 1]; entry [str "GetUser"; idIs 2]]).
Proof.
  destruct (refetch_cancel_filters usersConfig "users" "getUser"
              (groupUtils usersConfig Cache.client ["GetUser"])
              (operationUtils usersConfig Cache.client "GetUser")
              eq_refl eq_refl) as (op & Hname & Hacts & _).
  exists op. split; [exact Hname|].
  apply (Hacts (Some (OwnSpec.idFilter 1))
           [entry [str "GetUser"; idIs 1]; entry [str "GetUser"; idIs 2]]).
  - apply UtilsProps.plainKeys_idFilter.
  - repeat constructor.
Defined.

Lemma onMatching_idemp (act : Query → Query) (f : QueryFilters) (c : Store) :
  (∀ q : Query, matchQuery f (act q) = matchQuery f q) →
  (∀ q : Query, act (act q) = act q) →
  onMatching act f (onMatching act f c) = onMatching act f c.
Proof.
  intros Hm Hact. unfold onMatching. rewrite <- list_fmap_compose.
  apply list_fmap_ext. intros i q _. simpl.
  destruct (matchQuery f q) eqn:E; [|by rewrite E]. by rewrite Hm, E, Hact.
Qed.

Lemma matchQuery_key (op : string) (filters : option (gmap string Value))
    (q q' : Query) :
  queryKey q' = queryKey q →
  matchQuery (filtersFor op filters) q' = matchQuery (filtersFor op filters) q.
Proof.
  intros Hk. unfold matchQuery, filtersFor.
  destruct filters as [fs|]; [|by rewrite Hk].
  destruct (0 <? length (map_to_list fs))%nat; simpl; [|by rewrite Hk].
  unfold filterPredicate. by rewrite Hk.
Qed.

(** X15.  Invalidating or cancelling twice with the same filters is the
    same as doing it once: what a call selects depends on the keys only,
    which no call changes. *)
Theorem invalidate_cancel_idempotent (config : UtilsConfig) (g name : string)
    (grp : gmap string (OperationUtils Store)) (h : OperationUtils Store) :
  createUtilsFactory config Cache.client !! g = Some grp →
  grp !! name = Some h →
  ∀ (filters : option (gmap string Value)) (c : Store),
    invalidate h filters (invalidate h filters c) = invalidate h filters c
    ∧ cancel h filters (cancel h filters c) = cancel h filters c.
Proof.
  intros Hg Hh.
  destruct (UtilsProps.createUtils_handle _ _ _ _ _ _ Hg Hh)
    as (names & op & _ & _ & -> & ->).
  intros filters c. split; apply onMatching_idemp;
    auto using matchQuery_key.
Qed.

Lemma invalidate_cancel_idempotent_witness :
  invalidate (operationUtils usersConfig Cache.client "GetUser") None
    (invalidate (operationUtils usersConfig Cache.client "GetUser") None
       [entry [str "GetUser"; idIs 1]])
  = invalidate (operationUtils usersConfig Cache.client "GetUser") None
      [entry [str "GetUser"; idIs 1]].
Proof.
  apply (invalidate_cancel_idempotent usersConfig "users" "getUser"
           (groupUtils usersConfig Cache.client ["GetUser"])
           (operationUtils usersConfig Cache.client "GetUser")
           eq_refl eq_refl None [entry [str "GetUser"; idIs 1]]).
Defined.

End UtilsMore.

(** ** More on the generation plan *)

Module CodegenMore.
Import Codegen CodegenSpec PlanSpec.

Section Plan.
Variable pluginPath : string → string.

Lemma assignAll_lookup (l : list (string * Target)) (k : string) (t : Target) :
  NoDup l.*1 → assignAll l !! k = Some t ↔ (k, t) ∈ l.
Proof.
  induction l as [|[k' t'] l IH] using rev_ind.
  - intros _. unfold assignAll; simpl. rewrite lookup_empty, elem_of_nil.
    split; [done|tauto].
  - rewrite fmap_app, NoDup_app. intros (Hl & Hnew & _).
    rewrite CodegenProps.assignAll_snoc, lookup_insert_Some, elem_of_app,
      list_elem_of_singleton, (IH Hl). simpl. split.
    + intros [[-> ->]|[_ ?]]; [by right|by left].
    + intros [Hin|[= -> ->]]; [|by left]. right. split; [|done].
      intros ->. apply (Hnew k); [|apply list_elem_of_here].
      apply list_elem_of_fmap. by exists (k, t).
Qed.

Lemma assignAll_last (l : list (string * Target)) (k : string) (t : Target) :
  assignAll (l ++ [(k, t)]) !! k = Some t.
Proof. rewrite CodegenProps.assignAll_snoc. apply lookup_insert_eq. Qed.

Lemma endpointTargets_assigned (options : CodegenOptions) (name : string)
    (c : EndpointConfig) (path : string) (t : Target) :
  (name, c) ∈ endpoints options →
  (path, t) ∈ endpointTargets pluginPath (baseDirOf options) (versionOf options)
                (name, c) →
  (path, t) ∈ assignments pluginPath options.
Proof.
  intros Hin Ht. unfold assignments. apply elem_of_app; left.
  apply list_elem_of_bind. by exists (name, c).
Qed.

(** X16.  With each endpoint name listed once, the plan holds under each of
    an endpoint's four paths the target built from that endpoint's own
    settings: its schema and headers (none if absent), its documents, and,
    for the react-query target, a fetcher bound to its own gateway with
    the configured version (5 by default), for the cache-utils target its
    own name as service name. *)
Theorem endpoint_targets_lookup (options : CodegenOptions) (name : string)
    (c : EndpointConfig) :
  NoDup (endpoints options).*1 →
  (name, c) ∈ endpoints options →
  (∀ (path : string) (t : Target),
      (path, t) ∈ endpointTargets pluginPath (baseDirOf options)
                    (versionOf options) (name, c) →
      generates (createCodegenConfig pluginPath options) !! path = Some t
      ∧ targetSchema t = (schema c, default ∅ (headers c))
      ∧ documents t = Some [documentsPath c])
  ∧ (∃ t : Target,
        generates (createCodegenConfig pluginPath options)
          !! endpointPath options name "/plugins/react-query.ts" = Some t
        ∧ config t = Some (ReactQuery (gatewayEndpoint c) (versionOf options)))
  ∧ (∃ t : Target,
        generates (createCodegenConfig pluginPath options)
          !! endpointPath options name "/cache-utils.ts" = Some t
        ∧ config t = Some (CacheUtils name)
        ∧ plugins t = Some [pluginPath "cache-utils.plugin.cjs"]).
Proof.
  intros Hnames Hin.
  pose proof (CodegenProps.paths_NoDup pluginPath options Hnames) as Hnodup.
  assert (∀ path t,
             (path, t) ∈ endpointTargets pluginPath (baseDirOf options)
                           (versionOf options) (name, c) →
             generates (createCodegenConfig pluginPath options) !! path = Some t)
    as Hlook.
  { intros path t Ht. simpl. apply assignAll_lookup; [done|].
    by eapply endpointTargets_assigned. }
  split_and!.
  - intros path t Ht. split; [by apply Hlook|].
    unfold endpointTargets in Ht.
    rewrite !elem_of_cons, elem_of_nil in Ht.
    destruct_or!; try done; by simplify_eq.
  - eexists. split; [|shelve]. apply Hlook.
    unfold endpointTargets, endpointPath. rewrite !CodegenProps.append_assoc.
    do 2 apply list_elem_of_further. apply list_elem_of_here.
    Unshelve. reflexivity.
  - eexists. split; [|shelve]. apply Hlook.
    unfold endpointTargets, endpointPath. rewrite !CodegenProps.append_assoc.
    do 3 apply list_elem_of_further. apply list_elem_of_here.
    Unshelve. split; reflexivity.
Qed.

Lemma readmeTarget_cons (baseDir app name : string) (c : EndpointConfig)
    (others : list (string * EndpointConfig)) :
  readmeTarget pluginPath baseDir app ((name, c) :: others)
  = [ (baseDir +:+ "/../README.md",
       {| preset := None;
          targetSchema := (schema c, default ∅ (headers c));
          documents := None;
          plugins := Some [pluginPath "readme-generator.plugin.cjs"];
          config :=
            Some (Readme (app +:+ " (Multi-endpoint: "
                          +:+ join ", " (name :: others.*1) +:+ ")")
                    (name :: others.*1) true) |}) ].
Proof. reflexivity. Qed.

(** X17.  Whenever there is an endpoint, one or several, the README target
    is built on the first endpoint's schema, lists every endpoint name,
    carries the app name followed by the names, and is marked
    multi-endpoint. *)
Theorem readme_target_lookup (options : CodegenOptions) (name : string)
    (c : EndpointConfig) (others : list (string * EndpointConfig)) :
  endpoints options = (name, c) :: others →
  generates (createCodegenConfig pluginPath options) !! readmePath options
  = Some {| preset := None;
            targetSchema := (schema c, default ∅ (headers c));
            documents := None;
            plugins := Some [pluginPath "readme-generator.plugin.cjs"];
            config := Some (Readme (readmeTitle options)
                              (name :: others.*1) true) |}.
Proof.
  intros He. unfold createCodegenConfig, assignments. cbn [generates].
  unfold readmeTitle, readmePath, baseDirOf, appNameOf.
  rewrite He, readmeTarget_cons. apply assignAll_last.
Qed.

End Plan.

Lemma endpoint_targets_lookup_witness :
  ∃ t : Target,
    generates (createCodegenConfig (String.append "/pkg/dist/plugins/")
                 singleOptions)
      !! endpointPath singleOptions "users" "/plugins/react-query.ts" = Some t
    ∧ config t = Some (ReactQuery "https://users/graphql" 4).
Proof.
  apply (endpoint_targets_lookup (String.append "/pkg/dist/plugins/")
           singleOptions "users" (sampleEndpoint "https://users/graphql")).
  - apply NoDup_singleton.
  - apply list_elem_of_here.
Defined.

Lemma readme_target_lookup_witness :
  ∃ t : Target,
    generates (createCodegenConfig (String.append "/pkg/dist/plugins/")
                 singleOptions) !! "gen/../README.md" = Some t
    ∧ config t
      = Some (Readme "portal (Multi-endpoint: users)" ["users"] true).
Proof.
  eexists. split.
  - apply (readme_target_lookup (String.append "/pkg/dist/plugins/")
             singleOptions "users" (sampleEndpoint "https://users/graphql") []).
    reflexivity.
  - reflexivity.
Defined.

End CodegenMore.

(** ** More on the fetcher *)

Module FetcherMore.
Import Fetcher FetcherSpec FetcherCases.

(** X18.  Called without options, or with any falsy [options], the fetcher
    generated for a gateway written in printable ASCII without backslash
    or double quote posts the query and variables to that gateway with
    the [Content-Type] header and nothing else. *)
Theorem fetcher_without_options (configured gateway query : string)
    (variables options : Json) :
  literalValue configured = Some gateway →
  truthy options = false →
  buildRequest gateway query variables options
  = Ok (defaultRequest configured query variables).
Proof.
  intros Hliteral H.
  apply FetcherProps.literalValue_Some in Hliteral as [-> _].
  unfold buildRequest, readOptions. rewrite H. simpl.
  unfold defaultRequest, contentType. by rewrite (left_id_L ∅ (∪)).
Qed.

Lemma fetcher_without_options_witness :
  buildRequest "https://gw/graphql" "query Q { a }" (Num 1) Undefined
  = Ok (defaultRequest "https://gw/graphql" "query Q { a }" (Num 1)).
Proof.
  apply (fetcher_without_options "https://gw/graphql" "https://gw/graphql"
           "query Q { a }" (Num 1) Undefined); reflexivity.
Defined.

(** X19.  A truthy [options] that is not an object (a non-empty string, a
    number, [true]) makes the operation fail with a [TypeError] from the
    [in] test; no request is made, so the outcome is the same whatever the
    network would answer. *)
Theorem fetcher_primitive_options (gateway query : string)
    (variables options : Json) (network : Request → Response) :
  truthy options = true → isObjectLike options = false →
  buildRequest gateway query variables options = Fail TypeError
  ∧ fetcher gateway query variables options network = Fail TypeError.
Proof.
  intros Ht Ho. unfold fetcher, buildRequest, readOptions. rewrite Ht.
  destruct options; simpl in *; done.
Qed.

Lemma fetcher_primitive_options_witness :
  fetcher "https://gw/graphql" "query Q { a }" Undefined (Str "Bearer t")
    (respond boomBody)
  = Fail TypeError.
Proof.
  apply (fetcher_primitive_options "https://gw/graphql" "query Q { a }"
           Undefined (Str "Bearer t") (respond boomBody));
    reflexivity.
Defined.

Lemma readOptions_fail (gateway : string) (options : Json) (f : Failure) :
  readOptions gateway options = Fail f →
  f = TypeError ∧ truthy options = true ∧ isObjectLike options = false.
Proof.
  unfold readOptions.
  destruct options as [| |b|n|s|l|props]; simpl; try done.
  - destruct b; [by intros [= <-]|done].
  - destruct (negb (n =? 0)%Z); [by intros [= <-]|done].
  - destruct (negb (bool_decide (s = ""))); [by intros [= <-]|done].
  - by destruct (bool_decide (is_Some (props !! "customHeaders"))
                 || bool_decide (is_Some (props !! "endpoint"))).
Qed.

(** X20.  Every request the fetcher makes is a [POST] carrying the query
    and the variables as given, with a [Content-Type] header present,
    whatever the options; and building the request fails only with the
    [TypeError] of a truthy [options] that is not an object. *)
Theorem fetcher_request_shape (gateway query : string)
    (variables options : Json) :
  (∀ req : Request,
      buildRequest gateway query variables options = Ok req →
      method req = "POST"
      ∧ body_query req = query
      ∧ body_variables req = variables
      ∧ is_Some (headers req !! "Content-Type"))
  ∧ (∀ f : Failure,
        buildRequest gateway query variables options = Fail f →
        f = TypeError ∧ truthy options = true ∧ isObjectLike options = false).
Proof.
  unfold buildRequest. split.
  - intros req.
    destruct (readOptions gateway options) as [[customHeaders endpoint]|f];
      [|done].
    intros [= <-]. simpl. split_and!; try done.
    apply lookup_union_is_Some. right. by eexists.
  - intros f.
    destruct (readOptions gateway options) as [[customHeaders endpoint]|f']
      eqn:E; [done|].
    intros [= <-]. by apply readOptions_fail in E.
Qed.

Lemma fetcher_request_shape_witness :
  method (defaultRequest "https://gw/graphql" "query Q { a }" Null) = "POST"
  ∧ body_query (defaultRequest "https://gw/graphql" "query Q { a }" Null)
    = "query Q { a }"
  ∧ body_variables (defaultRequest "https://gw/graphql" "query Q { a }" Null)
    = Null
  ∧ is_Some (headers (defaultRequest "https://gw/graphql" "query Q { a }" Null)
               !! "Content-Type").
Proof.
  apply (proj1 (fetcher_request_shape "https://gw/graphql" "query Q { a }"
                  Null Undefined)).
  reflexivity.
Defined.

(** X21.  With a parsed body that is an object, the operation resolves
    exactly when [errors] is falsy (absent, [null], [false], [0] or [""]),
    and then with the [data] property, [undefined] if there is none. *)
Theorem fetcher_resolves_iff (gateway query : string)
    (variables options : Json) (network : Request → Response)
    (req : Request) (body : gmap string Json) (v : Json) :
  buildRequest gateway query variables options = Ok req →
  network req = Parsed (Obj body) →
  fetcher gateway query variables options network = Ok v
  ↔ truthy (default Undefined (body !! "errors")) = false
    ∧ v = default Undefined (body !! "data").
Proof.
  intros Hreq Hnet.
  rewrite (FetcherProps.fetcher_settles _ _ _ _ _ _ _ Hreq Hnet).
  unfold settle; simpl.
  destruct (truthy (default Undefined (body !! "errors"))).
  - split; [|by intros [? _]].
    destruct (first _) as [e|]; [|done]. by destruct (getProp "message" e).
  - split; [by intros [= <-]|by intros [_ ->]].
Qed.

Lemma fetcher_resolves_iff_witness :
  fetcher "https://gw/graphql" "query Q { a }" Undefined Undefined
    (respond (Obj {[ "data" := Num 7; "errors" := Num 0 ]}))
  = Ok (Num 7).
Proof.
  eapply (fetcher_resolves_iff "https://gw/graphql" "query Q { a }"
            Undefined Undefined
            (respond (Obj {[ "data" := Num 7; "errors" := Num 0 ]}))
            _ _ (Num 7) eq_refl eq_refl).
  split; reflexivity.
Defined.

(** X22.  What the network gives decides the rest: a rejection of [fetch]
    or of the parsing is passed on; a body that is [null] makes the
    operation fail with a [TypeError]; a body that is a number, a string, a
    boolean or an array has neither [errors] nor [data], so the operation
    resolves with [undefined]. *)
Theorem fetcher_other_responses (gateway query : string)
    (variables options : Json) (network : Request → Response) (req : Request) :
  buildRequest gateway query variables options = Ok req →
  (∀ reason : Json,
      network req = Rejected reason →
      fetcher gateway query variables options network = Fail (Transport reason))
  ∧ (∀ json : Json,
        network req = Parsed json → nullish json = true →
        fetcher gateway query variables options network = Fail TypeError)
  ∧ (∀ json : Json,
        network req = Parsed json → nullish json = false → isObj json = false →
        fetcher gateway query variables options network = Ok Undefined).
Proof.
  intros Hreq. split_and!.
  - intros reason Hnet. unfold fetcher. by rewrite Hreq, Hnet.
  - intros json Hnet Hn.
    rewrite (FetcherProps.fetcher_settles _ _ _ _ _ _ _ Hreq Hnet).
    by destruct json.
  - intros json Hnet Hn Ho.
    rewrite (FetcherProps.fetcher_settles _ _ _ _ _ _ _ Hreq Hnet).
    by destruct json.
Qed.

Lemma fetcher_other_responses_witness :
  fetcher "https://gw/graphql" "query Q { a }" Undefined Undefined
    (unreachable (Str "offline"))
  = Fail (Transport (Str "offline")).
Proof.
  eapply (proj1 (fetcher_other_responses "https://gw/graphql" "query Q { a }"
                   Undefined Undefined (unreachable (Str "offline")) _ eq_refl)).
  reflexivity.
Defined.

(** X23.  In the wrapper form a value counts only if it is truthy: an
    [endpoint] that is [""], [null] or [undefined] leaves the configured
    gateway as target (a gateway written in printable ASCII without
    backslash or double quote), and a falsy [customHeaders] leaves only the
    [Content-Type] header; the other properties of the wrapper are never
    sent. *)
Theorem fetcher_wrapper_fallback (configured gateway query : string)
    (variables : Json) (props : gmap string Json) :
  literalValue configured = Some gateway →
  is_Some (props !! "customHeaders") ∨ is_Some (props !! "endpoint") →
  ∃ req : Request,
    buildRequest gateway query variables (Obj props) = Ok req
    ∧ (truthy (default Undefined (props !! "endpoint")) = false →
         url req = Str configured)
    ∧ (truthy (default Undefined (props !! "customHeaders")) = false →
         headers req = contentType)
    ∧ (∀ k : string,
         is_Some (headers req !! k) →
         k = "Content-Type"
         ∨ is_Some (spread (default Undefined (props !! "customHeaders")) !! k)).
Proof.
  intros Hliteral H.
  apply FetcherProps.literalValue_Some in Hliteral as [-> _].
  eexists. unfold buildRequest.
  rewrite (FetcherProps.readOptions_wrapper _ _ H). split; [reflexivity|].
  simpl. unfold orElse. split_and!.
  - by intros ->.
  - intros ->. simpl. by rewrite (left_id_L ∅ (∪)).
  - intros k [Hk|Hk]%lookup_union_is_Some.
    + right. destruct (truthy (default Undefined (props !! "customHeaders")));
        [done|]. simpl in Hk. rewrite lookup_empty in Hk. by destruct Hk.
    + left. unfold contentType in Hk.
      destruct Hk as [x Hk]. by apply lookup_singleton_Some in Hk as [<- _].
Qed.

Lemma fetcher_wrapper_fallback_witness :
  ∃ req : Request,
    buildRequest "https://gw/graphql" "query Q { a }" Undefined
      (Obj {[ "endpoint" := Str ""; "Authorization" := Str "Bearer t" ]}) = Ok req
    ∧ url req = Str "https://gw/graphql"
    ∧ headers req = contentType.
Proof.
  destruct (fetcher_wrapper_fallback "https://gw/graphql" "https://gw/graphql"
              "query Q { a }" Undefined
              {[ "endpoint" := Str ""; "Authorization" := Str "Bearer t" ]}
              eq_refl)
    as (req & Hreq & Hurl & Hheaders & _).
  - right. by eexists.
  - exists req. split; [exact Hreq|].
    split; [apply Hurl; reflexivity | apply Hheaders; reflexivity].
Defined.

End FetcherMore.

(** ** Template helpers and the setup's scripts *)

Module SetupProps.
Import Helpers Setup.

Lemma upperChar_lowerChar (c : ascii) :
  Str.isUpper c = true → upperChar (Str.lowerChar c) = c.
Proof. destruct c as [[] [] [] [] [] [] [] []]; try discriminate; reflexivity. Qed.

Lemma lowerChar_upperChar (c : ascii) :
  Str.isLower c = true → Str.lowerChar (upperChar c) = c.
Proof. destruct c as [[] [] [] [] [] [] [] []]; try discriminate; reflexivity. Qed.

(** X24.  [camelCase] and the README's [pascalCase] undo each other on
    names that start with a letter of the right case, so the key of a
    handle gives back the Pascal-case operation name; and [camelCase]
    applied twice is [camelCase]. *)
Theorem camelCase_pascalCase (s : string) :
  (UtilsSpec.startsUpper s = true → pascalCase (camelCase s) = s)
  ∧ (startsLower s = true → camelCase (pascalCase s) = s)
  ∧ camelCase (camelCase s) = camelCase s.
Proof.
  destruct s as [|c s]; [done|]. unfold camelCase; simpl. split_and!.
  - intros Hc. by rewrite upperChar_lowerChar.
  - intros Hc. by rewrite lowerChar_upperChar.
  - by rewrite NamingMore.lowerChar_idemp.
Qed.

Lemma camelCase_pascalCase_witness :
  pascalCase (camelCase "GetUser") = "GetUser".
Proof.
  apply (proj1 (camelCase_pascalCase "GetUser")). reflexivity.
Defined.

Lemma hasEntry_insert_ne (m : gmap string string) (k k' v : string) :
  k ≠ k' → hasEntry (Some (<[k := v]> m)) k' = hasEntry (Some m) k'.
Proof. intros Hne. unfold hasEntry. by rewrite lookup_insert_ne. Qed.

Lemma updated_scripts (p : PackageJson) :
  scripts (updatePackageJsonScripts p)
  = Some (if hasEntry (scripts p) "gql:watch"
          then <["gql" := gqlCommand p]> (default ∅ (scripts p))
          else <["gql:watch" := watchCommand p]>
                 (<["gql" := gqlCommand p]> (default ∅ (scripts p)))).
Proof.
  unfold updatePackageJsonScripts, gqlCommand, watchCommand.
  cbv zeta. cbn [scripts].
  assert (∀ v, hasEntry (Some (<["gql" := v]> (default ∅ (scripts p)))) "gql:watch"
               = hasEntry (scripts p) "gql:watch") as Hw.
  { intros v. rewrite hasEntry_insert_ne by done.
    destruct (scripts p); [done|]. unfold hasEntry; simpl.
    by rewrite lookup_empty. }
  destruct (hasPortalQuery p); rewrite Hw;
    by destruct (hasEntry (scripts p) "gql:watch").
Qed.

Lemma hasEntry_default (o : option (gmap string string)) (k : string) :
  hasEntry (Some (default ∅ o)) k = hasEntry o k.
Proof. destruct o; [done|]. unfold hasEntry; simpl. by rewrite lookup_empty. Qed.

Lemma hasEntry_true (m : gmap string string) (k : string) :
  hasEntry (Some m) k = true ↔ ∃ w : string, m !! k = Some w ∧ w ≠ "".
Proof.
  unfold hasEntry. destruct (m !! k) as [w|].
  - rewrite negb_true_iff, bool_decide_eq_false. split.
    + intros Hw. by exists w.
    + by intros (w' & [= <-] & Hw).
  - split; [done|]. by intros (w & [=] & _).
Qed.

Lemma watchCommand_nonempty (p : PackageJson) : watchCommand p ≠ "".
Proof. unfold watchCommand. by destruct (hasPortalQuery p). Qed.

Lemma PackageJson_ext (q q' : PackageJson) :
  scripts q = scripts q' → devDependencies q = devDependencies q' →
  dependencies q = dependencies q' → q = q'.
Proof. destruct q, q'; simpl; by intros -> -> ->. Qed.

(** X25.  [updatePackageJsonScripts] always sets the [gql] script to the
    command of the package found ([query-codegen] when
    [@repo/portal-query] is a dependency), keeps a non-empty [gql:watch]
    script and otherwise adds one, and leaves every other script and the
    dependencies as they were; running it again changes nothing. *)
Theorem updatePackageJsonScripts_spec (p : PackageJson) :
  ∃ scripts' : gmap string string,
    scripts (updatePackageJsonScripts p) = Some scripts'
    ∧ scripts' !! "gql" = Some (gqlCommand p)
    ∧ (∀ w : string,
         default ∅ (scripts p) !! "gql:watch" = Some w → w ≠ "" →
         scripts' !! "gql:watch" = Some w)
    ∧ (hasEntry (scripts p) "gql:watch" = false →
         scripts' !! "gql:watch" = Some (watchCommand p))
    ∧ (∀ k : string,
         k ≠ "gql" → k ≠ "gql:watch" →
         scripts' !! k = default ∅ (scripts p) !! k)
    ∧ devDependencies (updatePackageJsonScripts p) = devDependencies p
    ∧ dependencies (updatePackageJsonScripts p) = dependencies p
    ∧ updatePackageJsonScripts (updatePackageJsonScripts p)
      = updatePackageJsonScripts p.
Proof.
  eexists. split; [apply updated_scripts|].
  split_and!.
  - destruct (hasEntry (scripts p) "gql:watch").
    + apply lookup_insert_eq.
    + rewrite lookup_insert_ne by done. apply lookup_insert_eq.
  - intros w Hw Hne.
    assert (hasEntry (scripts p) "gql:watch" = true) as ->.
    { rewrite <- hasEntry_default. apply hasEntry_true. by exists w. }
    by rewrite lookup_insert_ne.
  - intros ->. apply lookup_insert_eq.
  - intros k Hk Hk'. destruct (hasEntry (scripts p) "gql:watch");
      by rewrite !lookup_insert_ne.
  - done.
  - done.
  - apply PackageJson_ext; [|done|done].
    rewrite (updated_scripts (updatePackageJsonScripts p)).
    change (gqlCommand (updatePackageJsonScripts p)) with (gqlCommand p).
    change (watchCommand (updatePackageJsonScripts p)) with (watchCommand p).
    rewrite (updated_scripts p). cbn [from_option id]. f_equal.
    destruct (hasEntry (scripts p) "gql:watch") eqn:Hw.
    + rewrite hasEntry_insert_ne, hasEntry_default, Hw by done.
      apply insert_insert_eq.
    + assert (hasEntry (Some (<["gql:watch" := watchCommand p]>
                (<["gql" := gqlCommand p]> (default ∅ (scripts p)))))
                "gql:watch" = true) as ->.
      { apply hasEntry_true. exists (watchCommand p).
        split; [apply lookup_insert_eq|apply watchCommand_nonempty]. }
      rewrite (insert_insert_ne _ "gql" "gql:watch") by done.
      by rewrite insert_insert_eq.
Qed.
Lemma updatePackageJsonScripts_spec_witness :
  ∃ scripts' : gmap string string,
    scripts (updatePackageJsonScripts samplePackage) = Some scripts'
    ∧ scripts' !! "gql" = Some "query-codegen"
    ∧ scripts' !! "gql:watch" = Some "my-watch".
Proof.
  destruct (updatePackageJsonScripts_spec samplePackage)
    as (scripts' & Hs & Hgql & Hwatch & _).
  exists scripts'. split; [exact Hs|]. split; [exact Hgql|].
  apply Hwatch; [reflexivity|discriminate].
Defined.

End SetupProps.
